(** * JSON Web Tokens: sign, decode and verify

    A shallow embedding of the TypeScript sources [sign.ts], [decode.ts],
    [verify.ts] and of the helpers under [utils/], together with the
    properties of the natural-language specification that can be stated
    about them.

    Conventions of the embedding.

    - A JavaScript string is a Rocq [string].  Text is held in its UTF-8
      form, so that the UTF-8 bytes of a text are the characters of its
      representation; a "binary string" (what [btoa] takes and [atob]
      returns) and a [Uint8Array] hold one byte per element.
    - A JavaScript number is an integer [Z]: registered claims are numbers
      of seconds.  [NaN], infinities and fractions are outside the model.
    - An object is an association list in insertion order.  The payload
      object handed to [sign] lives in a store, because [sign] may write
      to the caller's object.
    - A rejected promise and a synchronous [throw] are both [Throw].
    - The optional node-style callback is absent, so that the helper
      [failure(err)] of the sources is [throw err]. *)

From Stdlib Require Import ZArith NArith List Ascii String Bool Lia.
From Stdlib Require Import DecimalString Decimal QArith Qround.
From Stdlib.Strings Require Import Byte.
From stdpp Require Import gmap strings.

Local Open Scope Z_scope.

(** ** Errors and results *)

Inductive error_class :=
| EError                  (* new Error(msg) *)
| ETypeError              (* property access on null or undefined, ... *)
| ESyntaxError            (* JSON.parse *)
| EURIError               (* decodeURIComponent *)
| EInvalidCharacterError  (* atob *)
| EAuthTokenError         (* new AuthTokenError(name) of verify.ts *)
| EProviderError          (* a rejection of the WebCrypto provider *)
| EOutOfModel.            (* a value the embedding has no representation for *)

Record error := mkError { err_class : error_class; err_message : string }.

Inductive result (A : Type) : Type :=
| Ok (a : A)
| Throw (e : error).
Arguments Ok {A} a.
Arguments Throw {A} e.

Definition rbind {A B} (r : result A) (k : A -> result B) : result B :=
  match r with
  | Ok a => k a
  | Throw e => Throw e
  end.

Definition rmap {A B} (f : A -> B) (r : result A) : result B :=
  rbind r (fun a => Ok (f a)).

(** [try { body } catch { handler }] *)
Definition try_catch {A} (body : result A) (handler : error -> result A) : result A :=
  match body with
  | Ok a => Ok a
  | Throw e => handler e
  end.

Declare Scope result_scope.
Delimit Scope result_scope with result.
Notation "x <- r ;; k" := (rbind r (fun x => k))
  (at level 100, r at next level, right associativity) : result_scope.
Notation "r ;; k" := (rbind r (fun _ => k))
  (at level 100, right associativity) : result_scope.

Definition is_throw {A} (r : result A) : bool :=
  match r with Ok _ => false | Throw _ => true end.

(** ** Characters and strings *)

(** The double quote, written by its code. *)
Definition dquote : ascii := ascii_of_nat 34.
Definition q : string := String dquote EmptyString.

Definition chars (s : string) : list ascii := list_ascii_of_string s.
Definition text (l : list ascii) : string := string_of_list_ascii l.

(** [s.replace(/c/g, d)] for single characters [c] and [d]. *)
Definition replace_char (c d : ascii) (s : string) : string :=
  text (map (fun x => if Ascii.eqb x c then d else x) (chars s)).

(** [s.replace(/c/g, '')] for a single character [c]. *)
Definition remove_char (c : ascii) (s : string) : string :=
  text (filter (fun x => negb (Ascii.eqb x c)) (chars s)).

(** [s.split(c)] for a single-character separator. *)
Fixpoint split_chars (c : ascii) (l : list ascii) : list (list ascii) :=
  match l with
  | [] => [[]]
  | x :: l' =>
      if Ascii.eqb x c then [] :: split_chars c l'
      else match split_chars c l' with
           | [] => [[x]]
           | p :: ps => (x :: p) :: ps
           end
  end.

Definition split (c : ascii) (s : string) : list string :=
  map text (split_chars c (chars s)).

(** ** The platform's base64: [btoa] and [atob]

    [btoa] is RFC 4648 base64 with padding; [atob] is the forgiving
    base64 decoding of the HTML standard: ASCII whitespace is dropped, one
    or two trailing [=] are dropped when the length is a multiple of four,
    a length of 1 modulo 4 and any character outside the alphabet fail,
    and the bits of an incomplete last group are discarded. *)

Module Base64.

(** Six bits, most significant first. *)
Inductive sextet := Sextet (b5 b4 b3 b2 b1 b0 : bool).

Definition sextet_to_N (s : sextet) : N :=
  let '(Sextet b5 b4 b3 b2 b1 b0) := s in
  N_of_ascii (Ascii b0 b1 b2 b3 b4 b5 false false).

Definition sextet_of_N (n : N) : sextet :=
  let '(Ascii b0 b1 b2 b3 b4 b5 _ _) := ascii_of_N n in
  Sextet b5 b4 b3 b2 b1 b0.

(** The alphabet [A-Za-z0-9+/]. *)
Definition char_of_sextet (s : sextet) : ascii :=
  let n := sextet_to_N s in
  if (n <? 26)%N then ascii_of_N (n + 65)
  else if (n <? 52)%N then ascii_of_N (n + 71)
  else if (n <? 62)%N then ascii_of_N (n - 4)
  else if (n =? 62)%N then "+"%char
  else "/"%char.

Definition sextet_of_char (c : ascii) : option sextet :=
  let n := N_of_ascii c in
  if (65 <=? n)%N && (n <=? 90)%N then Some (sextet_of_N (n - 65))
  else if (97 <=? n)%N && (n <=? 122)%N then Some (sextet_of_N (n - 71))
  else if (48 <=? n)%N && (n <=? 57)%N then Some (sextet_of_N (n + 4))
  else if Ascii.eqb c "+" then Some (sextet_of_N 62)
  else if Ascii.eqb c "/" then Some (sextet_of_N 63)
  else None.

(** Three bytes are four sextets. *)
Definition encode3 (a b c : ascii) : sextet * sextet * sextet * sextet :=
  let '(Ascii a0 a1 a2 a3 a4 a5 a6 a7) := a in
  let '(Ascii b0 b1 b2 b3 b4 b5 b6 b7) := b in
  let '(Ascii c0 c1 c2 c3 c4 c5 c6 c7) := c in
  (Sextet a7 a6 a5 a4 a3 a2, Sextet a1 a0 b7 b6 b5 b4,
   Sextet b3 b2 b1 b0 c7 c6, Sextet c5 c4 c3 c2 c1 c0).

Definition decode4 (s0 s1 s2 s3 : sextet) : ascii * ascii * ascii :=
  let '(Sextet a7 a6 a5 a4 a3 a2) := s0 in
  let '(Sextet a1 a0 b7 b6 b5 b4) := s1 in
  let '(Sextet b3 b2 b1 b0 c7 c6) := s2 in
  let '(Sextet c5 c4 c3 c2 c1 c0) := s3 in
  (Ascii a0 a1 a2 a3 a4 a5 a6 a7, Ascii b0 b1 b2 b3 b4 b5 b6 b7,
   Ascii c0 c1 c2 c3 c4 c5 c6 c7).

Definition zero_sextet : sextet := Sextet false false false false false false.

Fixpoint sextets_of_bytes (l : list ascii) : list sextet :=
  match l with
  | [] => []
  | [a] => let '(s0, s1, _, _) := encode3 a Ascii.zero Ascii.zero in [s0; s1]
  | [a; b] => let '(s0, s1, s2, _) := encode3 a b Ascii.zero in [s0; s1; s2]
  | a :: b :: c :: rest =>
      let '(s0, s1, s2, s3) := encode3 a b c in
      s0 :: s1 :: s2 :: s3 :: sextets_of_bytes rest
  end.

Fixpoint bytes_of_sextets (l : list sextet) : list ascii :=
  match l with
  | s0 :: s1 :: s2 :: s3 :: rest =>
      let '(a, b, c) := decode4 s0 s1 s2 s3 in a :: b :: c :: bytes_of_sextets rest
  | [s0; s1; s2] => let '(a, b, _) := decode4 s0 s1 s2 zero_sextet in [a; b]
  | [s0; s1] => let '(a, _, _) := decode4 s0 s1 zero_sextet zero_sextet in [a]
  | _ => []
  end.

Definition padding (n : nat) : list ascii :=
  match (n mod 3)%nat with
  | 1%nat => ["="; "="]%char
  | 2%nat => ["="]%char
  | _ => []
  end.

(** [btoa(s)] for a binary string [s]. *)
Definition btoa (s : string) : string :=
  text (map char_of_sextet (sextets_of_bytes (chars s)) ++ padding (String.length s)).

Definition is_ascii_whitespace (c : ascii) : bool :=
  match N_of_ascii c with
  | 9%N | 10%N | 12%N | 13%N | 32%N => true
  | _ => false
  end.

Definition strip_padding (l : list ascii) : list ascii :=
  match rev l with
  | "="%char :: "="%char :: r => rev r
  | "="%char :: r => rev r
  | _ => l
  end.

Fixpoint sextets_of_chars (l : list ascii) : option (list sextet) :=
  match l with
  | [] => Some []
  | c :: l' =>
      match sextet_of_char c, sextets_of_chars l' with
      | Some s, Some ss => Some (s :: ss)
      | _, _ => None
      end
  end.

Definition invalid_character : error :=
  mkError EInvalidCharacterError "The string to be decoded is not correctly encoded.".

(** [atob(data)]: a binary string, or an [InvalidCharacterError]. *)
Definition atob (data : string) : result string :=
  let d := filter (fun c => negb (is_ascii_whitespace c)) (chars data) in
  let d := if (length d mod 4 =? 0)%nat then strip_padding d else d in
  if (length d mod 4 =? 1)%nat then Throw invalid_character
  else match sextets_of_chars d with
       | Some ss => Ok (text (bytes_of_sextets ss))
       | None => Throw invalid_character
       end.

(** An encoding is canonical (RFC 4648, section 3.5) when the bits of its
    last symbol that belong to no byte are zero. *)
Fixpoint canonical (l : list sextet) : bool :=
  match l with
  | _ :: _ :: _ :: _ :: rest => canonical rest
  | [_; _; Sextet _ _ _ _ b1 b0] => negb b1 && negb b0
  | [_; Sextet _ _ b3 b2 b1 b0] => negb b3 && negb b2 && negb b1 && negb b0
  | _ => true
  end.

End Base64.

(** ** Text encodings of the platform *)

Module Utf8.

Definition code (c : ascii) : N := N_of_ascii c.

Definition in_range (lo hi : N) (c : ascii) : bool :=
  ((lo <=? code c) && (code c <=? hi))%N.

Definition continuation (c : ascii) : bool := in_range 128 191 c.

(** The length of the well-formed UTF-8 sequence a list of bytes starts
    with (Unicode, table 3-7), if it starts with one. *)
Definition sequence_length (l : list ascii) : option nat :=
  match l with
  | [] => None
  | b0 :: l1 =>
      if (code b0 <? 128)%N then Some 1%nat
      else match l1 with
      | [] => None
      | b1 :: l2 =>
          if in_range 194 223 b0 then
            if continuation b1 then Some 2%nat else None
          else match l2 with
          | [] => None
          | b2 :: l3 =>
              let second3 :=
                if (code b0 =? 224)%N then in_range 160 191 b1
                else if (code b0 =? 237)%N then in_range 128 159 b1
                else continuation b1 in
              if in_range 224 239 b0 then
                if second3 && continuation b2 then Some 3%nat else None
              else match l3 with
              | [] => None
              | b3 :: _ =>
                  let second4 :=
                    if (code b0 =? 240)%N then in_range 144 191 b1
                    else if (code b0 =? 244)%N then in_range 128 143 b1
                    else continuation b1 in
                  if in_range 240 244 b0 && second4 && continuation b2 && continuation b3
                  then Some 4%nat else None
              end
          end
      end
  end.

(** Whether a byte sequence is well-formed UTF-8; [pending] counts the
    bytes still owed to the sequence being read. *)
Fixpoint well_formed_from (pending : nat) (l : list ascii) : bool :=
  match l with
  | [] => true
  | c :: l' =>
      match pending with
      | S k => well_formed_from k l'
      | O => match sequence_length l with
             | Some n => well_formed_from (n - 1) l'
             | None => false
             end
      end
  end.

Definition well_formed (s : string) : bool := well_formed_from 0 (chars s).

(** U+FFFD in UTF-8. *)
Definition replacement : list ascii :=
  [ascii_of_N 239; ascii_of_N 191; ascii_of_N 189].

(** Decoding bytes as UTF-8 text the way [Buffer.toString('utf8')] does:
    a byte that starts no well-formed sequence becomes U+FFFD. *)
Fixpoint decode_lossy (pending : nat) (l : list ascii) : list ascii :=
  match l with
  | [] => []
  | c :: l' =>
      match pending with
      | S k => c :: decode_lossy k l'
      | O => match sequence_length l with
             | Some n => c :: decode_lossy (n - 1) l'
             | None => replacement ++ decode_lossy 0 l'
             end
      end
  end.

(** The text whose code points are the given bytes, as
    [Buffer.toString('binary')] builds it. *)
Definition latin1_char (c : ascii) : list ascii :=
  if (code c <? 128)%N then [c]
  else if (code c <? 192)%N then [ascii_of_N 194; c]
  else [ascii_of_N 195; ascii_of_N (code c - 64)].

Definition of_latin1 (l : list ascii) : list ascii := flat_map latin1_char l.

(** The characters the regular expression class [\s] matches, in UTF-8:
    TAB, LF, VT, FF, CR, SPACE, U+00A0, U+1680, U+2000..U+200A, U+2028,
    U+2029, U+202F, U+205F, U+3000 and U+FEFF.  [space_length] is the
    number of bytes of the space a list starts with. *)
Definition space_length (l : list ascii) : option nat :=
  match l with
  | [] => None
  | c :: l1 =>
      let n := code c in
      if ((9 <=? n) && (n <=? 13) || (n =? 32))%N then Some 1%nat
      else match l1 with
      | [] => None
      | c1 :: l2 =>
          let n1 := code c1 in
          if ((n =? 194) && (n1 =? 160))%N then Some 2%nat
          else match l2 with
          | [] => None
          | c2 :: _ =>
              let n2 := code c2 in
              if ((n =? 225) && (n1 =? 154) && (n2 =? 128)
                  || (n =? 226) && (n1 =? 128)
                     && ((128 <=? n2) && (n2 <=? 138) || (n2 =? 168) || (n2 =? 169) || (n2 =? 175))
                  || (n =? 226) && (n1 =? 129) && (n2 =? 159)
                  || (n =? 227) && (n1 =? 128) && (n2 =? 128)
                  || (n =? 239) && (n1 =? 187) && (n2 =? 191))%N
              then Some 3%nat else None
          end
      end
  end.

(** [s.replace(/\s/g, '')] *)
Fixpoint remove_whitespace_from (pending : nat) (l : list ascii) : list ascii :=
  match l with
  | [] => []
  | c :: l' =>
      match pending with
      | S k => remove_whitespace_from k l'
      | O => match space_length l with
             | Some n => remove_whitespace_from (n - 1) l'
             | None => c :: remove_whitespace_from 0 l'
             end
      end
  end.

Definition remove_whitespace (s : string) : string :=
  text (remove_whitespace_from 0 (chars s)).

(** [unescape(encodeURIComponent(str))]: the binary string of the UTF-8
    bytes of [str].  Text is held in UTF-8, so the bytes are its
    characters. *)
Definition unescape_encodeURIComponent (str : string) : string := str.

Definition uri_malformed : error := mkError EURIError "URI malformed".

(** [decodeURIComponent(escape(bin))]: the text a binary string encodes,
    or a [URIError] when the bytes are not well-formed UTF-8. *)
Definition decodeURIComponent_escape (bin : string) : result string :=
  if well_formed bin then Ok bin else Throw uri_malformed.

End Utf8.

(** ** JavaScript values *)

Set Warnings "-register-all".

Inductive value :=
| VUndefined
| VNull
| VBool (b : bool)
| VNum (n : Z)
| VStr (s : string)
| VArr (items : list value)
| VObj (props : list (string * value)).

(** The own properties of a plain object, in insertion order. *)
Abbreviation props := (list (string * value)).

Definition typeof (v : value) : string :=
  match v with
  | VUndefined => "undefined"
  | VNull => "object"
  | VBool _ => "boolean"
  | VNum _ => "number"
  | VStr _ => "string"
  | VArr _ => "object"
  | VObj _ => "object"
  end.

(** ToBoolean: what [!v], [v && ...] and [v || ...] test. *)
Definition truthy (v : value) : bool :=
  match v with
  | VUndefined | VNull => false
  | VBool b => b
  | VNum n => negb (n =? 0)
  | VStr s => negb (String.eqb s "")
  | VArr _ | VObj _ => true
  end.

(** [a || b] *)
Definition js_or (a b : value) : value := if truthy a then a else b.

Definition is_undefined (v : value) : bool :=
  match v with VUndefined => true | _ => false end.

Fixpoint lookup_prop (k : string) (ps : props) : option value :=
  match ps with
  | [] => None
  | (k', v) :: ps' => if String.eqb k' k then Some v else lookup_prop k ps'
  end.

(** [o.k] for a plain object [o] and a name [k] that [Object.prototype]
    does not define: the own property, or [undefined]. *)
Definition get_prop (k : string) (ps : props) : value :=
  match lookup_prop k ps with
  | Some v => v
  | None => VUndefined
  end.

(** [o.k = v]: an existing property keeps its place. *)
Fixpoint set_prop (k : string) (v : value) (ps : props) : props :=
  match ps with
  | [] => [(k, v)]
  | (k', v') :: ps' =>
      if String.eqb k' k then (k, v) :: ps' else (k', v') :: set_prop k v ps'
  end.

(** [delete o.k] *)
Definition delete_prop (k : string) (ps : props) : props :=
  filter (fun kv => negb (String.eqb (fst kv) k)) ps.

(** [Object.keys(o)] *)
Definition keys (ps : props) : list string := map fst ps.

(** [Object.assign(target, source)] and the spread [{...target, ...source}]
    for plain objects. *)
Definition assign (target source : props) : props :=
  fold_left (fun acc kv => set_prop (fst kv) (snd kv) acc) source target.

(** The names every object inherits from [Object.prototype]; reading one
    of them from an object that has no own property of that name yields
    the inherited member. *)
Definition object_prototype_names : list string :=
  ["constructor"; "hasOwnProperty"; "isPrototypeOf"; "propertyIsEnumerable";
   "toLocaleString"; "toString"; "valueOf"; "__proto__";
   "__defineGetter__"; "__defineSetter__"; "__lookupGetter__"; "__lookupSetter__"].

Definition in_strings (k : string) (l : list string) : bool :=
  existsb (String.eqb k) l.

Definition type_error (msg : string) : error := mkError ETypeError msg.

(** [v[k]] for a value [v] that need not be an object, and a name [k]
    among the claim and header names the sources read ([typ], [payload],
    [nbf], [exp], ...): no string, array, number or boolean has such a
    property, and [null] and [undefined] have none at all. *)
Definition get (v : value) (k : string) : result value :=
  match v with
  | VUndefined => Throw (type_error "Cannot read properties of undefined")
  | VNull => Throw (type_error "Cannot read properties of null")
  | VObj ps => Ok (get_prop k ps)
  | _ => Ok VUndefined
  end.

(** *** Numbers as text *)

Definition Z_to_string (n : Z) : string := NilZero.string_of_int (Z.to_int n).

Definition digit_of_char (c : ascii) : option Z :=
  let n := N_of_ascii c in
  if ((48 <=? n) && (n <=? 57))%N then Some (Z.of_N n - 48) else None.

(** The value of a run of decimal digits read after the value [acc]. *)
Fixpoint digits_value (acc : Z) (l : list ascii) : option Z :=
  match l with
  | [] => Some acc
  | c :: l' =>
      match digit_of_char c with
      | Some d => digits_value (10 * acc + d) l'
      | None => None
      end
  end.

(** *** Conversions *)

Definition join (sep : string) (l : list string) : string := String.concat sep l.

(** ToString, as [String(v)], [v.toString()] and string concatenation
    apply it. *)
Fixpoint js_String (v : value) : string :=
  match v with
  | VUndefined => "undefined"
  | VNull => "null"
  | VBool b => if b then "true" else "false"
  | VNum n => Z_to_string n
  | VStr s => s
  | VArr items =>
      join "," (map (fun x => match x with
                              | VUndefined | VNull => ""
                              | _ => js_String x
                              end) items)
  | VObj _ => "[object Object]"
  end.

Definition out_of_model (what : string) : error := mkError EOutOfModel what.

(** ToNumber for the operand of a comparison with a number: [None] is
    [NaN].  Strings and objects convert through the numeric-literal
    grammar, which the embedding does not cover. *)
Definition to_number (v : value) : result (option Z) :=
  match v with
  | VUndefined => Ok None
  | VNull => Ok (Some 0)
  | VBool b => Ok (Some (if b then 1 else 0))
  | VNum n => Ok (Some n)
  | VStr _ | VArr _ | VObj _ => Throw (out_of_model "ToNumber of a string or an object")
  end.

(** [v > n] and [v <= n] for a number [n]; a comparison with [NaN] is
    false. *)
Definition js_gt (v : value) (n : Z) : result bool :=
  rmap (fun x => match x with Some m => n <? m | None => false end) (to_number v).

Definition js_le (v : value) (n : Z) : result bool :=
  rmap (fun x => match x with Some m => m <=? n | None => false end) (to_number v).

(** ** The platform's JSON *)

Module Json.

Definition code (c : ascii) : N := N_of_ascii c.

Definition backslash : ascii := ascii_of_nat 92.

Definition hex_digit (n : N) : ascii :=
  if (n <? 10)%N then ascii_of_N (48 + n) else ascii_of_N (87 + n).

(** QuoteJSONString, one character at a time. *)
Definition escape_char (c : ascii) : list ascii :=
  let n := code c in
  if (n =? 34)%N then [backslash; dquote]
  else if (n =? 92)%N then [backslash; backslash]
  else if (n =? 8)%N then [backslash; "b"%char]
  else if (n =? 9)%N then [backslash; "t"%char]
  else if (n =? 10)%N then [backslash; "n"%char]
  else if (n =? 12)%N then [backslash; "f"%char]
  else if (n =? 13)%N then [backslash; "r"%char]
  else if (n <? 32)%N then
    [backslash; "u"%char; "0"%char; "0"%char; hex_digit (n / 16); hex_digit (n mod 16)]
  else [c].

Definition quote (s : string) : string :=
  text (dquote :: flat_map escape_char (chars s) ++ [dquote]).

(** [JSON.stringify(v)]; [None] is the result [undefined].  A property
    whose value is [undefined] is left out, and an [undefined] array
    element is written [null]. *)
Fixpoint stringify (v : value) : option string :=
  match v with
  | VUndefined => None
  | VNull => Some "null"
  | VBool b => Some (if b then "true" else "false")
  | VNum n => Some (Z_to_string n)
  | VStr s => Some (quote s)
  | VArr items =>
      Some ("[" +:+ join "," (map (fun x => match stringify x with
                                            | Some t => t
                                            | None => "null"
                                            end) items) +:+ "]")
  | VObj ps =>
      Some ("{" +:+ join ","
         ((fix members (ps : props) : list string :=
             match ps with
             | [] => []
             | (k, x) :: ps' =>
                 match stringify x with
                 | Some t => (quote k +:+ ":" +:+ t) :: members ps'
                 | None => members ps'
                 end
             end) ps) +:+ "}")
  end.

Definition syntax_error : error := mkError ESyntaxError "Unexpected token in JSON".

Definition is_ws (c : ascii) : bool :=
  let n := code c in ((n =? 32) || (n =? 9) || (n =? 10) || (n =? 13))%N.

Fixpoint skip_ws (l : list ascii) : list ascii :=
  match l with
  | c :: l' => if is_ws c then skip_ws l' else l
  | [] => []
  end.

Definition hex_value (c : ascii) : option N :=
  let n := code c in
  if ((48 <=? n) && (n <=? 57))%N then Some (n - 48)%N
  else if ((97 <=? n) && (n <=? 102))%N then Some (n - 87)%N
  else if ((65 <=? n) && (n <=? 70))%N then Some (n - 55)%N
  else None.

Definition hex4 (a b c d : ascii) : option N :=
  match hex_value a, hex_value b, hex_value c, hex_value d with
  | Some x, Some y, Some z, Some w => Some (((x * 16 + y) * 16 + z) * 16 + w)%N
  | _, _, _, _ => None
  end.

(** The UTF-8 bytes of a code point. *)
Definition utf8_of_code_point (n : N) : list ascii :=
  if (n <? 128)%N then [ascii_of_N n]
  else if (n <? 2048)%N then [ascii_of_N (192 + n / 64); ascii_of_N (128 + n mod 64)]
  else if (n <? 65536)%N then
    [ascii_of_N (224 + n / 4096); ascii_of_N (128 + (n / 64) mod 64);
     ascii_of_N (128 + n mod 64)]
  else
    [ascii_of_N (240 + n / 262144); ascii_of_N (128 + (n / 4096) mod 64);
     ascii_of_N (128 + (n / 64) mod 64); ascii_of_N (128 + n mod 64)].

Definition is_high_surrogate (n : N) : bool := ((55296 <=? n) && (n <? 56320))%N.
Definition is_low_surrogate (n : N) : bool := ((56320 <=? n) && (n <? 57344))%N.

(** The characters of a string literal after its opening quote, and what
    follows the closing quote. *)
Fixpoint parse_string_body (l : list ascii) : option (list ascii * list ascii) :=
  match l with
  | [] => None
  | c :: l1 =>
      if Ascii.eqb c dquote then Some ([], l1)
      else if Ascii.eqb c backslash then
        match l1 with
        | [] => None
        | e :: l2 =>
            let simple (x : N) :=
              match parse_string_body l2 with
              | Some (s, r) => Some (ascii_of_N x :: s, r)
              | None => None
              end in
            if Ascii.eqb e dquote then simple 34%N
            else if Ascii.eqb e backslash then simple 92%N
            else if Ascii.eqb e "/" then simple 47%N
            else if Ascii.eqb e "b" then simple 8%N
            else if Ascii.eqb e "f" then simple 12%N
            else if Ascii.eqb e "n" then simple 10%N
            else if Ascii.eqb e "r" then simple 13%N
            else if Ascii.eqb e "t" then simple 9%N
            else if Ascii.eqb e "u" then
              match l2 with
              | h1 :: h2 :: h3 :: h4 :: l6 =>
                  match hex4 h1 h2 h3 h4 with
                  | None => None
                  | Some n =>
                      let single :=
                        match parse_string_body l6 with
                        | Some (s, r) => Some (utf8_of_code_point n ++ s, r)
                        | None => None
                        end in
                      if is_high_surrogate n then
                        match l6 with
                        | b :: u :: g1 :: g2 :: g3 :: g4 :: l12 =>
                            match hex4 g1 g2 g3 g4 with
                            | Some m =>
                                if Ascii.eqb b backslash && Ascii.eqb u "u"
                                   && is_low_surrogate m
                                then match parse_string_body l12 with
                                     | Some (s, r) =>
                                         Some (utf8_of_code_point
                                                 (65536 + (n - 55296) * 1024 + (m - 56320))
                                                 ++ s, r)
                                     | None => None
                                     end
                                else single
                            | None => single
                            end
                        | _ => single
                        end
                      else single
                  end
              | _ => None
              end
            else None
        end
      else if (code c <? 32)%N then None
      else match parse_string_body l1 with
           | Some (s, r) => Some (c :: s, r)
           | None => None
           end
  end.

Definition is_digit (c : ascii) : bool := ((48 <=? code c) && (code c <=? 57))%N.

(** The longest run of digits a list starts with, and the rest. *)
Fixpoint span_digits (l : list ascii) : list ascii * list ascii :=
  match l with
  | c :: l' =>
      if is_digit c then let '(ds, r) := span_digits l' in (c :: ds, r)
      else ([], l)
  | [] => ([], [])
  end.

(** A number literal with no fraction and no exponent; a literal with
    one denotes a value the embedding does not represent. *)
Definition parse_number (l : list ascii) : result (value * list ascii) :=
  let '(negative, l1) :=
    match l with
    | c :: l' => if Ascii.eqb c "-" then (true, l') else (false, l)
    | [] => (false, l)
    end in
  let '(ds, r) := span_digits l1 in
  match ds with
  | [] => Throw syntax_error
  | d :: ds' =>
      if Ascii.eqb d "0" && negb (match ds' with [] => true | _ => false end)
      then Throw syntax_error
      else
        match r with
        | c :: _ =>
            if Ascii.eqb c "." || Ascii.eqb c "e" || Ascii.eqb c "E"
            then Throw (out_of_model "number literal with a fraction or an exponent")
            else match digits_value 0 ds with
                 | Some n => Ok (VNum (if negative then - n else n), r)
                 | None => Throw syntax_error
                 end
        | [] => match digits_value 0 ds with
                | Some n => Ok (VNum (if negative then - n else n), r)
                | None => Throw syntax_error
                end
        end
  end.

(** [l] starts with the characters of [w]: the rest. *)
Fixpoint expect (w : list ascii) (l : list ascii) : option (list ascii) :=
  match w, l with
  | [], _ => Some l
  | c :: w', d :: l' => if Ascii.eqb c d then expect w' l' else None
  | _ :: _, [] => None
  end.

Fixpoint parse_value (fuel : nat) (l : list ascii) : result (value * list ascii) :=
  match fuel with
  | O => Throw syntax_error
  | S fuel' =>
      match skip_ws l with
      | [] => Throw syntax_error
      | c :: l1 =>
          if Ascii.eqb c "{" then
            match skip_ws l1 with
            | d :: l2 => if Ascii.eqb d "}" then Ok (VObj [], l2)
                         else parse_members fuel' [] l1
            | [] => Throw syntax_error
            end
          else if Ascii.eqb c "[" then
            match skip_ws l1 with
            | d :: l2 => if Ascii.eqb d "]" then Ok (VArr [], l2)
                         else parse_elements fuel' [] l1
            | [] => Throw syntax_error
            end
          else if Ascii.eqb c dquote then
            match parse_string_body l1 with
            | Some (s, r) => Ok (VStr (text s), r)
            | None => Throw syntax_error
            end
          else if Ascii.eqb c "t" then
            match expect (chars "rue") l1 with
            | Some r => Ok (VBool true, r)
            | None => Throw syntax_error
            end
          else if Ascii.eqb c "f" then
            match expect (chars "alse") l1 with
            | Some r => Ok (VBool false, r)
            | None => Throw syntax_error
            end
          else if Ascii.eqb c "n" then
            match expect (chars "ull") l1 with
            | Some r => Ok (VNull, r)
            | None => Throw syntax_error
            end
          else parse_number (c :: l1)
      end
  end
with parse_elements (fuel : nat) (acc : list value) (l : list ascii)
  : result (value * list ascii) :=
  match fuel with
  | O => Throw syntax_error
  | S fuel' =>
      match parse_value fuel' l with
      | Throw e => Throw e
      | Ok (v, r) =>
          match skip_ws r with
          | d :: r' =>
              if Ascii.eqb d "," then parse_elements fuel' (acc ++ [v]) r'
              else if Ascii.eqb d "]" then Ok (VArr (acc ++ [v]), r')
              else Throw syntax_error
          | [] => Throw syntax_error
          end
      end
  end
with parse_members (fuel : nat) (acc : props) (l : list ascii)
  : result (value * list ascii) :=
  match fuel with
  | O => Throw syntax_error
  | S fuel' =>
      match skip_ws l with
      | c :: l1 =>
          if Ascii.eqb c dquote then
            match parse_string_body l1 with
            | None => Throw syntax_error
            | Some (k, r) =>
                match skip_ws r with
                | d :: r1 =>
                    if Ascii.eqb d ":" then
                      match parse_value fuel' r1 with
                      | Throw e => Throw e
                      | Ok (v, r2) =>
                          let acc' := set_prop (text k) v acc in
                          match skip_ws r2 with
                          | d2 :: r3 =>
                              if Ascii.eqb d2 "," then parse_members fuel' acc' r3
                              else if Ascii.eqb d2 "}" then Ok (VObj acc', r3)
                              else Throw syntax_error
                          | [] => Throw syntax_error
                          end
                      end
                    else Throw syntax_error
                | [] => Throw syntax_error
                end
            end
          else Throw syntax_error
      | [] => Throw syntax_error
      end
  end.

(** [JSON.parse(text)] *)
Definition parse (t : string) : result value :=
  match parse_value (S (String.length t)) (chars t) with
  | Throw e => Throw e
  | Ok (v, r) => match skip_ws r with
                 | [] => Ok v
                 | _ :: _ => Throw syntax_error
                 end
  end.

End Json.

(** ** The external collaborators

    The clock, the [ms] time-span parser, the table [utils/algorithms],
    [utils/str2ab] and the WebCrypto provider are not part of the sources;
    a run of the program is relative to an environment that supplies
    them. *)

(** [SubtleCryptoImportKeyAlgorithm] of [types.ts]. *)
Record algorithm := mkAlgorithm {
  alg_name : string;
  alg_hash : string;
  alg_namedCurve : option string
}.

Inductive key_format := FmtRaw | FmtJwk | FmtPkcs8 | FmtSpki.
Inductive key_usage := UseSign | UseVerify.
Inductive key_data :=
| KeyObject (jwk : value)
| KeyBytes (bytes : list byte).

Record Env := mkEnv {
  (** [Date.now()], in milliseconds *)
  now_ms : Z;
  (** [ms(str)]: milliseconds, [undefined], or an exception *)
  ms : string -> result (option Z);
  (** [algorithms[name]] *)
  algorithms : string -> option algorithm;
  (** [str2ab(base64)] *)
  str2ab : string -> result (list byte);
  (** [crypto.subtle] *)
  CryptoKey : Type;
  importKey : key_format -> key_data -> algorithm -> key_usage -> result CryptoKey;
  subtle_sign : algorithm -> CryptoKey -> list byte -> result (list byte);
  subtle_verify : algorithm -> CryptoKey -> list byte -> list byte -> result bool
}.

(** [Math.floor(Date.now() / 1000)] *)
Definition unix_seconds (E : Env) : Z := now_ms E / 1000.

(** ** [utils/base64-url-parse.ts], [utils/base64-url-stringify.ts] *)

Definition base64UrlParse (s : string) : result (list byte) :=
  (bin <- Base64.atob
            (Utf8.remove_whitespace (replace_char "_" "/" (replace_char "-" "+" s)));;
   Ok (list_byte_of_string bin))%result.

Definition base64UrlStringify (a : list byte) : string :=
  replace_char "/" "_"
    (replace_char "+" "-"
       (remove_char "=" (Base64.btoa (string_of_list_byte a)))).

(** ** [utils/utf8-to-uint8array.ts] *)

Definition utf8ToUint8Array (str : value) : result (list byte) :=
  base64UrlParse (Base64.btoa (Utf8.unescape_encodeURIComponent (js_String str))).

(** ** [utils/decode-payload.ts] *)

Definition error_ (msg : string) : error := mkError EError msg.

(** The [switch (raw.length % 4)] of [decodePayload]. *)
Definition decodePayload_pad (raw : string) : result string :=
  match (String.length raw mod 4)%nat with
  | 0%nat => Ok raw
  | 2%nat => Ok (raw +:+ "==")
  | 3%nat => Ok (raw +:+ "=")
  | _ => Throw (error_ "Illegal base64url string!")
  end.

Definition decodePayload (raw : string) : result value :=
  (raw <- decodePayload_pad raw;;
   try_catch
     (bin <- Base64.atob raw;;
      str <- Utf8.decodeURIComponent_escape bin;;
      Json.parse str)
     (fun _ => Ok VNull))%result.

(** ** [utils/to-string.ts] *)

Definition toString (obj : value) : value :=
  match obj with
  | VStr s => VStr s
  | VNum _ => VStr (js_String obj)
  | VUndefined | VNull =>
      match Json.stringify obj with
      | Some t => VStr t
      | None => VUndefined
      end
  | _ => VStr (js_String obj)
  end.

(** ** [utils/timespan.ts] *)

(** [Math.floor(timestamp + milliseconds / 1000)], over the rationals. *)
Definition floor_seconds (timestamp milliseconds : Z) : Z :=
  Qfloor (Qplus (inject_Z timestamp) (Qdiv (inject_Z milliseconds) (inject_Z 1000))).

(** The number a value is, where the sources do arithmetic on it. *)
Definition number_of (v : value) : result Z :=
  match v with
  | VNum n => Ok n
  | _ => Throw (out_of_model "arithmetic on a value that is no number")
  end.

(** [timespan(time, iat)]: a number of seconds, or [undefined]. *)
Definition timespan (E : Env) (time : value) (iat : value) : result value :=
  let timestamp := js_or iat (VNum (unix_seconds E)) in
  match time with
  | VStr s =>
      (milliseconds <- ms E s;;
       match milliseconds with
       | None => Ok VUndefined
       | Some m => (t <- number_of timestamp;; Ok (VNum (floor_seconds t m)))
       end)%result
  | VNum n => (t <- number_of timestamp;; Ok (VNum (t + n)))%result
  | _ => Ok VUndefined
  end.

(** ** The [Buffer] of [topgun-buffer]

    [Buffer.from(str, 'base64')] reads the standard and the URL-safe
    alphabet alike, stops at the first [=], skips every other character
    and drops an incomplete last symbol. *)

Module Buffer.

Definition unurl (c : ascii) : ascii :=
  if Ascii.eqb c "-" then "+"%char else if Ascii.eqb c "_" then "/"%char else c.

Fixpoint before_pad (l : list ascii) : list ascii :=
  match l with
  | [] => []
  | c :: l' => if Ascii.eqb c "=" then [] else c :: before_pad l'
  end.

Fixpoint known_sextets (l : list ascii) : list Base64.sextet :=
  match l with
  | [] => []
  | c :: l' =>
      match Base64.sextet_of_char (unurl c) with
      | Some s => s :: known_sextets l'
      | None => known_sextets l'
      end
  end.

Definition from_base64 (str : string) : list ascii :=
  let ss := known_sextets (before_pad (chars str)) in
  if (length ss <? 2)%nat then [] else Base64.bytes_of_sextets ss.

(** [buf.toString('binary')] *)
Definition toString_binary (buf : list ascii) : string := text (Utf8.of_latin1 buf).

(** [buf.toString('utf8')] *)
Definition toString_utf8 (buf : list ascii) : string := text (Utf8.decode_lossy 0 buf).

End Buffer.

(** ** [utils/jws-decode.ts] *)

Definition jws_char (c : ascii) : bool :=
  let n := N_of_ascii c in
  ((97 <=? n) && (n <=? 122) || (65 <=? n) && (n <=? 90) || (48 <=? n) && (n <=? 57)
   || (n =? 45) || (n =? 95))%N.

(** [JWS_REGEX.test(s)] for
    [/^[a-zA-Z0-9\-_]+?\.[a-zA-Z0-9\-_]+?\.([a-zA-Z0-9\-_]+)?$/]: the class
    excludes the dot, so a match is a split into three segments of the
    class, the first two of them not empty. *)
Definition JWS_REGEX_test (s : string) : bool :=
  match split_chars "." (chars s) with
  | [h; p; g] =>
      negb (length h =? 0)%nat && forallb jws_char h
      && negb (length p =? 0)%nat && forallb jws_char p
      && forallb jws_char g
  | _ => false
  end.

(** An unpadded base64url string that some byte sequence encodes to: its
    characters are of the URL-safe alphabet, its length is not 1 modulo
    4, and it is canonical. *)
Definition valid_base64url (s : string) : Prop :=
  forallb jws_char (chars s) = true
  /\ (String.length s mod 4)%nat <> 1%nat
  /\ Base64.canonical (Buffer.known_sextets (chars s)) = true.

(** [Object.prototype.toString.call(thing) === '[object Object]'] *)
Definition isObject (thing : value) : bool :=
  match thing with VObj _ => true | _ => false end.

Definition safeJsonParse (thing : value) : value :=
  if isObject thing then thing
  else match Json.parse (js_String thing) with
       | Ok v => v
       | Throw _ => VUndefined
       end.

(** [s.split('.')[i]] *)
Definition segment (i : nat) (s : string) : value :=
  match nth_error (split "." s) i with
  | Some x => VStr x
  | None => VUndefined
  end.

Definition headerFromJWS (jwsSig : string) : value :=
  let encodedHeader := segment 0 jwsSig in
  safeJsonParse
    (VStr (Buffer.toString_binary (Buffer.from_base64 (js_String encodedHeader)))).

Definition isValidJws (s : string) : bool :=
  JWS_REGEX_test s && truthy (headerFromJWS s).

(** [payloadFromJWS(jwsSig)], with the default encoding ['utf8']. *)
Definition payloadFromJWS (jwsSig : string) : string :=
  let payload := segment 1 jwsSig in
  Buffer.toString_utf8 (Buffer.from_base64 (js_String payload)).

Definition signatureFromJWS (jwsSig : string) : value := segment 2 jwsSig.

(** [a === 'JWT'] *)
Definition is_JWT (a : value) : bool :=
  match a with VStr s => String.eqb s "JWT" | _ => false end.

(** [jwsDecode(jwsSig, opts)]: [null], or the object
    [{header, payload, signature}].  [opts] carries no reviver. *)
Definition jwsDecode (jwsSig : value) (opts : value) : result value :=
  let opts := js_or opts (VObj []) in
  let jwsSig := js_String (toString jwsSig) in
  if negb (isValidJws jwsSig) then Ok VNull
  else
    let header := headerFromJWS jwsSig in
    if negb (truthy header) then Ok VNull
    else
      (typ <- get header "typ";;
       json <- get opts "json";;
       payload <-
         (if is_JWT typ || truthy json
          then Json.parse (payloadFromJWS jwsSig)
          else Ok (VStr (payloadFromJWS jwsSig)));;
       Ok (VObj [("header", header); ("payload", payload);
                 ("signature", signatureFromJWS jwsSig)]))%result.

(** ** [decode.ts] *)

Definition is_true (a : value) : bool :=
  match a with VBool true => true | _ => false end.

Definition decode (token : value) (options : value) : result value :=
  let options := js_or options (VObj []) in
  (decoded <- jwsDecode token options;;
   if negb (truthy decoded) then Ok VNull
   else
     payload <- get decoded "payload";;
     let payload :=
       match payload with
       | VStr s =>
           match Json.parse s with
           | Ok obj =>
               if negb (match obj with VNull => true | _ => false end)
                  && String.eqb (typeof obj) "object"
               then obj else payload
           | Throw _ => payload
           end
       | _ => payload
       end in
     complete <- get options "complete";;
     if is_true complete then
       header <- get decoded "header";;
       signature <- get decoded "signature";;
       Ok (VObj [("header", header); ("payload", payload); ("signature", signature)])
     else Ok payload)%result.

(** ** The store and the calls to the provider

    [sign] may write to the object its caller passed, so objects that are
    passed by reference live in a store.  The calls made to the WebCrypto
    provider are recorded in the order they are made. *)

Definition loc := positive.

Inductive call :=
| CallImportKey (fmt : key_format) (data : key_data) (alg : algorithm) (usage : key_usage)
| CallSign (alg : algorithm) (input : list byte)
| CallVerify (alg : algorithm) (signature input : list byte).

Record state := mkState {
  heap : gmap loc props;
  calls : list call
}.

Definition M (A : Type) : Type := state -> result A * state.

Definition ret {A} (a : A) : M A := fun st => (Ok a, st).

Definition throw {A} (e : error) : M A := fun st => (Throw e, st).

Definition bind {A B} (m : M A) (k : A -> M B) : M B :=
  fun st =>
    match m st with
    | (Ok a, st') => k a st'
    | (Throw e, st') => (Throw e, st')
    end.

Definition lift {A} (r : result A) : M A := fun st => (r, st).

Declare Scope M_scope.
Delimit Scope M_scope with M.
Notation "x <- m ;; k" := (bind m (fun x => k))
  (at level 100, m at next level, right associativity) : M_scope.
Notation "m ;; k" := (bind m (fun _ => k))
  (at level 100, right associativity) : M_scope.

(** [if (c) { m }] *)
Definition when (c : bool) (m : M unit) : M unit := if c then m else ret tt.

(** The helper [failure(err)] of [sign] and [verify], with no callback. *)
Definition failure {A} (err : error) : M A := throw err.

Definition load (l : loc) : M props :=
  fun st =>
    match heap st !! l with
    | Some ps => (Ok ps, st)
    | None => (Throw (out_of_model "reference to no object"), st)
    end.

Definition store (l : loc) (ps : props) : M unit :=
  fun st => (Ok tt, mkState (<[l := ps]> (heap st)) (calls st)).

(** A new object with the given properties. *)
Definition alloc (ps : props) : M loc :=
  fun st =>
    let l := fresh (dom (heap st)) in
    (Ok l, mkState (<[l := ps]> (heap st)) (calls st)).

Definition record_call (c : call) : M unit :=
  fun st => (Ok tt, mkState (heap st) (calls st ++ [c])).

Definition call_importKey (E : Env) (fmt : key_format) (data : key_data)
    (alg : algorithm) (usage : key_usage) : M (CryptoKey E) :=
  (record_call (CallImportKey fmt data alg usage);;
   lift (importKey E fmt data alg usage))%M.

Definition call_sign (E : Env) (alg : algorithm) (key : CryptoKey E)
    (input : list byte) : M (list byte) :=
  (record_call (CallSign alg input);;
   lift (subtle_sign E alg key input))%M.

Definition call_verify (E : Env) (alg : algorithm) (key : CryptoKey E)
    (signature input : list byte) : M bool :=
  (record_call (CallVerify alg signature input);;
   lift (subtle_verify E alg key signature input))%M.

(** ** Key material

    The normalisation of the secret that [sign] and [verify] share. *)

Fixpoint starts_with (p l : list ascii) : option (list ascii) :=
  match p, l with
  | [], _ => Some l
  | c :: p', d :: l' => if Ascii.eqb c d then starts_with p' l' else None
  | _ :: _, [] => None
  end.

Definition dashes : list ascii := chars "-----".

(** The shortest match of [.*?-----] at the head of [l]: what follows it.
    The dot matches no line terminator. *)
Fixpoint lazy_until_dashes (l : list ascii) : option (list ascii) :=
  match starts_with dashes l with
  | Some r => Some r
  | None =>
      match l with
      | [] => None
      | c :: l' =>
          let n := N_of_ascii c in
          if ((n =? 10) || (n =? 13))%N then None
          else match starts_with [ascii_of_N 226; ascii_of_N 128] l with
               | Some (d :: _) =>
                   if ((N_of_ascii d =? 168) || (N_of_ascii d =? 169))%N then None
                   else lazy_until_dashes l'
               | _ => lazy_until_dashes l'
               end
      end
  end.

(** [s.replace(/MARK.*?-----/g, '')] *)
Fixpoint remove_armor (fuel : nat) (mark : list ascii) (l : list ascii) : list ascii :=
  match fuel with
  | O => l
  | S fuel' =>
      match l with
      | [] => []
      | c :: l' =>
          match starts_with mark l with
          | Some r =>
              match lazy_until_dashes r with
              | Some r' => remove_armor fuel' mark r'
              | None => c :: remove_armor fuel' mark l'
              end
          | None => c :: remove_armor fuel' mark l'
          end
      end
  end.

Definition strip_pem (secret : string) : string :=
  let l := chars secret in
  let l := remove_armor (length l) (chars "-----BEGIN") l in
  let l := remove_armor (length l) (chars "-----END") l in
  Utf8.remove_whitespace (text l).

Definition startsWith (s p : string) : bool :=
  match starts_with (chars p) (chars s) with Some _ => true | None => false end.

(** The key format and key data [importKey] is given; [armored] is
    ['pkcs8'] in [sign] and ['spki'] in [verify]. *)
Definition key_material (E : Env) (armored : key_format) (secret : value)
  : result (key_format * key_data) :=
  if String.eqb (typeof secret) "object" then Ok (FmtJwk, KeyObject secret)
  else match secret with
       | VStr s =>
           if startsWith s "-----BEGIN"
           then (ab <- str2ab E (strip_pem s);; Ok (armored, KeyBytes ab))%result
           else (bytes <- utf8ToUint8Array secret;; Ok (FmtRaw, KeyBytes bytes))%result
       | _ => (bytes <- utf8ToUint8Array secret;; Ok (FmtRaw, KeyBytes bytes))%result
       end.

(** ** [sign.ts] *)

(** Modelled from the spec: the predicates of [utils/is-string],
    [utils/is-number], [utils/is-boolean] and [utils/is-plain-object],
    which the schema tables name ("string", "number", "boolean", "plain
    object"). *)
Definition isString (v : value) : bool := match v with VStr _ => true | _ => false end.
Definition isNumber (v : value) : bool := match v with VNum _ => true | _ => false end.
Definition isBoolean (v : value) : bool := match v with VBool _ => true | _ => false end.
Definition isPlainObject (v : value) : bool := match v with VObj _ => true | _ => false end.
Definition Array_isArray (v : value) : bool := match v with VArr _ => true | _ => false end.

Definition SUPPORTED_ALGS : list string :=
  ["ES256"; "ES384"; "ES512"; "HS256"; "HS384"; "HS512"; "RS256"; "RS384"; "RS512"; "none"].

(** [SUPPORTED_ALGS.includes(value)] *)
Definition includes (l : list string) (v : value) : bool :=
  match v with VStr s => in_strings s l | _ => false end.

Record validator := mkValidator {
  isValid : value -> bool;
  message : string
}.

Definition sign_options_schema : list (string * validator) :=
  [ ("expiresIn",
     mkValidator (fun value => isNumber value || (isString value && truthy value))
       (q +:+ "expiresIn" +:+ q +:+ " should be a number of seconds or string representing a timespan"));
    ("notBefore",
     mkValidator (fun value => isNumber value || (isString value && truthy value))
       (q +:+ "notBefore" +:+ q +:+ " should be a number of seconds or string representing a timespan"));
    ("audience",
     mkValidator (fun value => isString value || Array_isArray value)
       (q +:+ "audience" +:+ q +:+ " must be a string or array"));
    ("algorithm",
     mkValidator (fun value => includes SUPPORTED_ALGS value)
       (q +:+ "algorithm" +:+ q +:+ " must be a valid string enum value"));
    ("header", mkValidator isPlainObject (q +:+ "header" +:+ q +:+ " must be an object"));
    ("issuer", mkValidator isString (q +:+ "issuer" +:+ q +:+ " must be a string"));
    ("subject", mkValidator isString (q +:+ "subject" +:+ q +:+ " must be a string"));
    ("jwtid", mkValidator isString (q +:+ "jwtid" +:+ q +:+ " must be a string"));
    ("noTimestamp", mkValidator isBoolean (q +:+ "noTimestamp" +:+ q +:+ " must be a boolean"));
    ("keyid", mkValidator isString (q +:+ "keyid" +:+ q +:+ " must be a string"));
    ("mutatePayload", mkValidator isBoolean (q +:+ "mutatePayload" +:+ q +:+ " must be a boolean")) ].

Definition registered_claims_schema : list (string * validator) :=
  [ ("iat", mkValidator isNumber (q +:+ "iat" +:+ q +:+ " should be a number of seconds"));
    ("exp", mkValidator isNumber (q +:+ "exp" +:+ q +:+ " should be a number of seconds"));
    ("nbf", mkValidator isNumber (q +:+ "nbf" +:+ q +:+ " should be a number of seconds")) ].

Fixpoint schema_entry (key : string) (schema : list (string * validator)) : option validator :=
  match schema with
  | [] => None
  | (k, v) :: schema' => if String.eqb k key then Some v else schema_entry key schema'
  end.

(** The body of the [forEach] of [validate], for one key.  A key that
    [Object.prototype] defines reads an inherited member from the schema
    table, which has no [isValid]. *)
Definition validate_key (schema : list (string * validator)) (allowUnknown : bool)
    (object : props) (parameterName : string) (key : string) : result unit :=
  match schema_entry key schema with
  | None =>
      if in_strings key object_prototype_names
      then Throw (type_error "validator.isValid is not a function")
      else if negb allowUnknown
      then Throw (error_ (q +:+ key +:+ q +:+ " is not allowed in " +:+ q +:+ parameterName +:+ q))
      else Ok tt
  | Some validator =>
      if negb (isValid validator (get_prop key object))
      then Throw (error_ (message validator))
      else Ok tt
  end.

(** [keys.forEach(f)], stopping at the first exception. *)
Fixpoint forEach {A} (f : A -> result unit) (l : list A) : result unit :=
  match l with
  | [] => Ok tt
  | x :: l' => (f x;; forEach f l')%result
  end.

Definition validate (schema : list (string * validator)) (allowUnknown : bool)
    (object : value) (parameterName : string) : result unit :=
  if negb (isPlainObject object)
  then Throw (error_ ("Expected " +:+ q +:+ parameterName +:+ q +:+ " to be a plain object."))
  else match object with
       | VObj ps => forEach (validate_key schema allowUnknown ps parameterName) (keys ps)
       | _ => Ok tt
       end.

Definition validateOptions (options : value) : result unit :=
  validate sign_options_schema false options "options".

Definition validatePayload (payload : value) : result unit :=
  validate registered_claims_schema true payload "payload".

Definition options_to_payload : list (string * string) :=
  [("audience", "aud"); ("issuer", "iss"); ("subject", "sub"); ("jwtid", "jti")].

Definition options_for_objects : list string :=
  ["expiresIn"; "notBefore"; "noTimestamp"; "audience"; "issuer"; "subject"; "jwtid"].

(** The first argument of [sign]: [undefined], [null], a string, or a
    reference to an object of the store. *)
Inductive payload_arg :=
| PUndefined
| PNull
| PString (s : string)
| PObject (l : loc).

Definition payload_typeof (p : payload_arg) : string :=
  match p with
  | PUndefined => "undefined"
  | PNull | PObject _ => "object"
  | PString _ => "string"
  end.

(** The value a payload denotes in the current store. *)
Definition payload_value (p : payload_arg) : M value :=
  match p with
  | PUndefined => ret VUndefined
  | PNull => ret VNull
  | PString s => ret (VStr s)
  | PObject l => (ps <- load l;; ret (VObj ps))%M
  end.

(** [payload[k]] *)
Definition payload_get (p : payload_arg) (k : string) : M value :=
  (v <- payload_value p;; lift (get v k))%M.

(** [payload[k] = v], in strict mode. *)
Definition payload_set (p : payload_arg) (k : string) (v : value) : M unit :=
  match p with
  | PObject l => (ps <- load l;; store l (set_prop k v ps))%M
  | PString _ => throw (type_error "Cannot create property on string")
  | PNull => throw (type_error "Cannot set properties of null")
  | PUndefined => throw (type_error "Cannot set properties of undefined")
  end.

(** [delete payload[k]] *)
Definition payload_delete (p : payload_arg) (k : string) : M unit :=
  match p with
  | PObject l => (ps <- load l;; store l (delete_prop k ps))%M
  | PString _ => ret tt
  | PNull => throw (type_error "Cannot convert undefined or null to object")
  | PUndefined => throw (type_error "Cannot convert undefined or null to object")
  end.

(** [Object.assign({}, payload)] *)
Definition payload_copy (p : payload_arg) : M payload_arg :=
  match p with
  | PObject l => (ps <- load l;; l' <- alloc ps;; ret (PObject l'))%M
  | _ => (l' <- alloc [];; ret (PObject l'))%M
  end.

(** [Object.assign(target, source)] for a source that need not be an
    object.  A source that is no plain object is [undefined], or a value
    that [validateOptions] rejects before the header is used. *)
Definition object_assign (target : props) (source : value) : props :=
  match source with
  | VObj ps => assign target ps
  | _ => target
  end.

(** [a !== 'none'] *)
Definition is_not_none (a : value) : bool :=
  match a with VStr s => negb (String.eqb s "none") | _ => true end.

(** The result of [JSON.stringify] as a value. *)
Definition JSON_stringify (v : value) : value :=
  match Json.stringify v with
  | Some t => VStr t
  | None => VUndefined
  end.

Definition conflict_message (option_ claim : string) : string :=
  "Bad " +:+ q +:+ "options." +:+ option_ +:+ q +:+ " option the payload already has an "
    +:+ q +:+ claim +:+ q +:+ " property.".

Definition conflict_message' (option_ claim : string) : string :=
  "Bad " +:+ q +:+ "options." +:+ option_ +:+ q +:+ " option. The payload already has an "
    +:+ q +:+ claim +:+ q +:+ " property.".

Definition timespan_message (option_ : string) : string :=
  q +:+ option_ +:+ q
    +:+ " should be a number of seconds or string representing a timespan eg: "
    +:+ q +:+ "1d" +:+ q +:+ ", " +:+ q +:+ "20h" +:+ q +:+ ", 60".

(** The body of the [forEach] over [options_to_payload]. *)
Definition copy_option (options : props) (payload : payload_arg) (entry : string * string)
  : M unit :=
  let '(key, claim) := entry in
  if negb (is_undefined (get_prop key options)) then
    (existing <- payload_get payload claim;;
     if negb (is_undefined existing)
     then failure (error_ (conflict_message' key claim))
     else payload_set payload claim (get_prop key options))%M
  else ret tt.

Fixpoint forEachM {A} (f : A -> M unit) (l : list A) : M unit :=
  match l with
  | [] => ret tt
  | x :: l' => (f x;; forEachM f l')%M
  end.

(** Lines 142-149 of [sign.ts]: the default algorithm and the header. *)
Definition sign_options (options : option props) : props :=
  let options := match options with Some o => o | None => [] end in
  assign [("algorithm", VStr "HS256")] options.

Definition sign_header (payload : payload_arg) (options : props) : props :=
  let isObjectPayload := String.eqb (payload_typeof payload) "object" in
  object_assign
    [("alg", get_prop "algorithm" options);
     ("typ", if isObjectPayload then VStr "JWT" else VUndefined)]
    (get_prop "header" options).

(** Lines 160-195 of [sign.ts]: the checks on the secret and the payload.
    The result is the payload the rest of [sign] works on: the caller's
    object, or a copy of it. *)
Definition sign_payload (payload : payload_arg) (secretOrPrivateKey : value)
    (options : props) : M payload_arg :=
  let isObjectPayload := String.eqb (payload_typeof payload) "object" in
  (when (negb (truthy secretOrPrivateKey) && is_not_none (get_prop "algorithm" options))
     (failure (error_ "secretOrPrivateKey must have a value"));;
   if String.eqb (payload_typeof payload) "undefined"
   then failure (error_ "payload is required")
   else if isObjectPayload then
     (v <- payload_value payload;;
      lift (try_catch (validatePayload v) (fun error => Throw error));;
      if negb (truthy (get_prop "mutatePayload" options))
      then payload_copy payload
      else ret payload)
   else
     let invalid_options :=
       filter (fun opt => negb (is_undefined (get_prop opt options))) options_for_objects in
     (when (0 <? length invalid_options)%nat
        (failure (error_ ("invalid " +:+ join "," invalid_options +:+ " option for "
                            +:+ payload_typeof payload +:+ " payload")));;
      ret payload))%M.

(** Lines 197-270 of [sign.ts]: the conflict checks, the validation of
    the options and the assembly of the claims, on the payload
    [sign_payload] returned. *)
Definition sign_assemble (E : Env) (options : props) (payload : payload_arg) : M unit :=
  let isObjectPayload := String.eqb (payload_typeof payload) "object" in
  (exp <- payload_get payload "exp";;
   when (negb (is_undefined exp) && negb (is_undefined (get_prop "expiresIn" options)))
     (failure (error_ (conflict_message "expiresIn" "exp")));;
   nbf <- payload_get payload "nbf";;
   when (negb (is_undefined nbf) && negb (is_undefined (get_prop "notBefore" options)))
     (failure (error_ (conflict_message "notBefore" "nbf")));;
   lift (try_catch (validateOptions (VObj options)) (fun error => Throw error));;
   iat <- payload_get payload "iat";;
   let timestamp := js_or iat (VNum (unix_seconds E)) in
   (if truthy (get_prop "noTimestamp" options) then payload_delete payload "iat"
    else if isObjectPayload then payload_set payload "iat" timestamp
    else ret tt);;
   when (negb (is_undefined (get_prop "notBefore" options)))
     (v <- lift (try_catch (timespan E (get_prop "notBefore" options) timestamp)
                   (fun err => Throw err));;
      payload_set payload "nbf" v;;
      nbf <- payload_get payload "nbf";;
      when (is_undefined nbf) (failure (error_ (timespan_message "notBefore"))));;
   when (negb (is_undefined (get_prop "expiresIn" options))
         && String.eqb (payload_typeof payload) "object")
     (v <- lift (try_catch (timespan E (get_prop "expiresIn" options) timestamp)
                   (fun err => Throw err));;
      payload_set payload "exp" v;;
      exp <- payload_get payload "exp";;
      when (is_undefined exp) (failure (error_ (timespan_message "expiresIn"))));;
   forEachM (copy_option options payload) options_to_payload)%M.

(** Lines 272-329 of [sign.ts]: the serialisation and the signature. *)
Definition sign_token (E : Env) (header : props) (payload : payload_arg)
    (secretOrPrivateKey : value) (options : props) : M string :=
  (v <- payload_value payload;;
   let payloadAsJSON := JSON_stringify v in
   headerBytes <- lift (utf8ToUint8Array (JSON_stringify (VObj header)));;
   payloadBytes <- lift (utf8ToUint8Array payloadAsJSON);;
   let partialToken :=
     base64UrlStringify headerBytes +:+ "." +:+ base64UrlStringify payloadBytes in
   material <- lift (key_material E FmtPkcs8 secretOrPrivateKey);;
   let '(keyFormat, keyData) := material in
   algorithm <-
     match algorithms E (js_String (get_prop "algorithm" options)) with
     | Some a => ret a
     | None => failure (error_ "algorithm not found")
     end;;
   key <- call_importKey E keyFormat keyData algorithm UseSign;;
   input <- lift (utf8ToUint8Array (VStr partialToken));;
   signature <- call_sign E algorithm key input;;
   ret (partialToken +:+ "." +:+ base64UrlStringify signature))%M.

(** [sign(payload, secretOrPrivateKey, options)]; [options] is [None]
    when the argument is omitted. *)
Definition sign (E : Env) (payload : payload_arg) (secretOrPrivateKey : value)
    (options : option props) : M string :=
  let options := sign_options options in
  let header := sign_header payload options in
  (working <- sign_payload payload secretOrPrivateKey options;;
   sign_assemble E options working;;
   sign_token E header working secretOrPrivateKey options)%M.

(** ** [verify.ts] *)

Definition auth_token_error (name : string) : error := mkError EAuthTokenError name.

(** The default value of the parameter [options], the string shorthand
    for the algorithm, and the merge with the defaults. *)
Definition verify_options (options : value) : props :=
  let options :=
    match options with
    | VUndefined => VObj [("algorithm", VStr "HS256"); ("throwError", VBool false)]
    | VStr s => VObj [("algorithm", VStr s); ("throwError", VBool false)]
    | _ => options
    end in
  object_assign [("algorithm", VStr "HS256"); ("throwError", VBool false)] options.

(** Lines 36-56 of [verify.ts]: the checks on the arguments.  The result
    is the list [tokenParts]. *)
Definition verify_arguments (token secret : value) (options : props) : result (list string) :=
  if negb (String.eqb (typeof token) "string")
  then Throw (error_ "AuthTokenInvalidError")
  else if negb (String.eqb (typeof secret) "string")
          && negb (String.eqb (typeof secret) "object")
  then Throw (error_ "secret must be a string or a JWK object")
  else if negb (String.eqb (typeof (get_prop "algorithm" options)) "string")
  then Throw (error_ "options.algorithm must be a string")
  else
    let tokenParts := split "." (js_String token) in
    if negb (length tokenParts =? 3)%nat
    then Throw (error_ "token must consist of 3 parts")
    else Ok tokenParts.

(** Lines 65-95 of [verify.ts]: the payload is taken from the result of
    [decode], then the [nbf] and [exp] checks run.  [inl r] is the value
    [verify] returns at once; [inr payload] lets the call go on to the
    signature. *)
Definition verify_claims (E : Env) (token : value) (options : props)
  : result (value + value) :=
  (decoded <- decode token VUndefined;;
   payload <- get decoded "payload";;
   if negb (truthy payload) then
     if truthy (get_prop "throwError" options)
     then Throw (auth_token_error "ParseError")
     else Ok (inl (VBool false))
   else
     nbf <- get payload "nbf";;
     not_yet <- (if truthy nbf then js_gt nbf (unix_seconds E) else Ok false);;
     if not_yet then
       if truthy (get_prop "throwError" options)
       then Throw (auth_token_error "NotYetValid")
       else Ok (inl (VBool false))
     else
       exp <- get payload "exp";;
       expired <- (if truthy exp then js_le exp (unix_seconds E) else Ok false);;
       if expired then
         if truthy (get_prop "throwError" options)
         then Throw (auth_token_error "TokenExpiredError")
         else Ok (inl (VBool false))
       else Ok (inr payload))%result.

Definition part (i : nat) (tokenParts : list string) : string :=
  nth i tokenParts "".

(** Lines 96-132 of [verify.ts]: the key is imported, then the signature
    is checked. *)
Definition verify_signature (E : Env) (secret : value) (algorithm : algorithm)
    (tokenParts : list string) (payload : value) : M value :=
  (material <- lift (key_material E FmtSpki secret);;
   let '(keyFormat, keyData) := material in
   key <- call_importKey E keyFormat keyData algorithm UseVerify;;
   signature <- lift (base64UrlParse (part 2 tokenParts));;
   input <- lift (utf8ToUint8Array
                    (VStr (part 0 tokenParts +:+ "." +:+ part 1 tokenParts)));;
   ok <- call_verify E algorithm key signature input;;
   ret (if ok then payload else VBool false))%M.

(** [verify(token, secret, options)]: the payload, or [false]. *)
Definition verify (E : Env) (token secret options : value) : M value :=
  let options := verify_options options in
  (tokenParts <- lift (verify_arguments token secret options);;
   algorithm <-
     match algorithms E (js_String (get_prop "algorithm" options)) with
     | Some a => ret a
     | None => throw (error_ "algorithm not found")
     end;;
   checked <- lift (verify_claims E token options);;
   match checked with
   | inl r => ret r
   | inr payload => verify_signature E secret algorithm tokenParts payload
   end)%M.

(** ** A reference environment

    An environment to run the embedding in: a fixed clock, a time-span
    parser for a number followed by [s], [m], [h] or [d], the algorithm
    table of the specification's supported set, and a provider whose
    signature is a one-byte checksum of key and message.  It stands for
    the external collaborators in the examples below; no general
    property depends on it. *)

Module Reference.

Definition parse_ms (str : string) : result (option Z) :=
  if String.eqb str "" then Throw (error_ "val is not a non-empty string or a valid number")
  else
    let l := chars str in
    let '(ds, unit_) := Json.span_digits l in
    match ds, digits_value 0 ds with
    | _ :: _, Some n =>
        match text unit_ with
        | "ms" | "" => Ok (Some n)
        | "s" => Ok (Some (n * 1000))
        | "m" => Ok (Some (n * 60000))
        | "h" => Ok (Some (n * 3600000))
        | "d" => Ok (Some (n * 86400000))
        | _ => Ok None
        end
    | _, _ => Ok None
    end.

Definition table (name : string) : option algorithm :=
  match name with
  | "HS256" => Some (mkAlgorithm "HMAC" "SHA-256" None)
  | "HS384" => Some (mkAlgorithm "HMAC" "SHA-384" None)
  | "HS512" => Some (mkAlgorithm "HMAC" "SHA-512" None)
  | "RS256" => Some (mkAlgorithm "RSASSA-PKCS1-v1_5" "SHA-256" None)
  | "RS384" => Some (mkAlgorithm "RSASSA-PKCS1-v1_5" "SHA-384" None)
  | "RS512" => Some (mkAlgorithm "RSASSA-PKCS1-v1_5" "SHA-512" None)
  | "ES256" => Some (mkAlgorithm "ECDSA" "SHA-256" (Some "P-256"))
  | "ES384" => Some (mkAlgorithm "ECDSA" "SHA-384" (Some "P-384"))
  | "ES512" => Some (mkAlgorithm "ECDSA" "SHA-512" (Some "P-521"))
  | _ => None
  end.

Definition checksum (key input : list byte) : list byte :=
  let total := fold_left (fun acc b => (acc + Byte.to_N b)%N) (key ++ input) 0%N in
  match Byte.of_N (total mod 256) with
  | Some b => [b]
  | None => []
  end.

Definition import_raw (fmt : key_format) (data : key_data) (alg : algorithm)
    (usage : key_usage) : result (list byte) :=
  match fmt, data with
  | FmtRaw, KeyBytes bytes => Ok bytes
  | _, _ => Throw (mkError EProviderError "unsupported key")
  end.

Definition env : Env :=
  {| now_ms := 1700000000000;
     ms := parse_ms;
     algorithms := table;
     str2ab := fun s => base64UrlParse s;
     CryptoKey := list byte;
     importKey := import_raw;
     subtle_sign := fun _ key input => Ok (checksum key input);
     subtle_verify := fun _ key signature input =>
       Ok (String.eqb (string_of_list_byte signature)
                     (string_of_list_byte (checksum key input))) |}.

(** The store in which the caller's payload object is at location 1. *)
Definition with_object (ps : props) : state := mkState {[ 1%positive := ps ]} [].

Definition caller : payload_arg := PObject 1%positive.

End Reference.

(** ** The assembly of the claims as a function of the properties

    [sign_assemble] reads and writes one object of the store.  [assemble]
    is the same sequence of steps on the properties of that object, with
    no store: a program over one cell. *)

Definition C (A : Type) : Type := props -> result A * props.

Definition cret {A} (a : A) : C A := fun ps => (Ok a, ps).

Definition cthrow {A} (e : error) : C A := fun ps => (Throw e, ps).

Definition cbind {A B} (c : C A) (k : A -> C B) : C B :=
  fun ps =>
    match c ps with
    | (Ok a, ps') => k a ps'
    | (Throw e, ps') => (Throw e, ps')
    end.

Definition clift {A} (r : result A) : C A := fun ps => (r, ps).

Definition cwhen (c : bool) (m : C unit) : C unit := if c then m else cret tt.

Definition cget (k : string) : C value := fun ps => (Ok (get_prop k ps), ps).

Definition cset (k : string) (v : value) : C unit := fun ps => (Ok tt, set_prop k v ps).

Definition cdelete (k : string) : C unit := fun ps => (Ok tt, delete_prop k ps).

Declare Scope C_scope.
Delimit Scope C_scope with C.
Notation "x <- m ;; k" := (cbind m (fun x => k))
  (at level 100, m at next level, right associativity) : C_scope.
Notation "m ;; k" := (cbind m (fun _ => k))
  (at level 100, right associativity) : C_scope.

Definition copy_claim (options : props) (entry : string * string) : C unit :=
  let '(key, claim) := entry in
  if negb (is_undefined (get_prop key options)) then
    (existing <- cget claim;;
     if negb (is_undefined existing)
     then cthrow (error_ (conflict_message' key claim))
     else cset claim (get_prop key options))%C
  else cret tt.

Fixpoint forEachC {A} (f : A -> C unit) (l : list A) : C unit :=
  match l with
  | [] => cret tt
  | x :: l' => (f x;; forEachC f l')%C
  end.

(** The two conflict checks of lines 197-205. *)
Definition check_conflict (claim option_ : string) (options : props) : C unit :=
  (existing <- cget claim;;
   cwhen (negb (is_undefined existing) && negb (is_undefined (get_prop option_ options)))
     (cthrow (error_ (conflict_message option_ claim))))%C.

(** Lines 218-225. *)
Definition stamp (options : props) (timestamp : value) : C unit :=
  if truthy (get_prop "noTimestamp" options) then cdelete "iat" else cset "iat" timestamp.

(** Lines 227-241 for [notBefore] and [nbf], lines 243-257 for
    [expiresIn] and [exp]. *)
Definition inject_timespan (E : Env) (options : props) (option_ claim : string)
    (timestamp : value) : C unit :=
  cwhen (negb (is_undefined (get_prop option_ options)))
    (v <- clift (try_catch (timespan E (get_prop option_ options) timestamp)
                   (fun err => Throw err));;
     cset claim v;;
     x <- cget claim;;
     cwhen (is_undefined x) (cthrow (error_ (timespan_message option_))))%C.

Definition assemble (E : Env) (options : props) : C unit :=
  (check_conflict "exp" "expiresIn" options;;
   check_conflict "nbf" "notBefore" options;;
   clift (try_catch (validateOptions (VObj options)) (fun error => Throw error));;
   iat <- cget "iat";;
   let timestamp := js_or iat (VNum (unix_seconds E)) in
   stamp options timestamp;;
   inject_timespan E options "notBefore" "nbf" timestamp;;
   inject_timespan E options "expiresIn" "exp" timestamp;;
   forEachC (copy_claim options) options_to_payload)%C.

(** Running a program over one cell on the object at [l]. *)
Definition on_object {A} (l : loc) (c : C A) : M A :=
  fun st =>
    match heap st !! l with
    | Some ps =>
        let '(r, ps') := c ps in
        (r, mkState (<[l := ps']> (heap st)) (calls st))
    | None => (Throw (out_of_model "reference to no object"), st)
    end.

(** The value of a result, [undefined] for an exception. *)
Definition value_of (r : result value) : value :=
  match r with Ok v => v | Throw _ => VUndefined end.

(** The claims a successful [sign] serialises, for a payload object with
    the properties [ps]: [iat] is set to the timestamp (or removed under
    [noTimestamp]), [nbf] and [exp] are set from [notBefore] and
    [expiresIn], and [aud], [iss], [sub] and [jti] from [audience],
    [issuer], [subject] and [jwtid], each only when its option is set;
    nothing else changes. *)
Definition set_if_defined (option_ claim : string) (v : value) (options ps : props) : props :=
  if negb (is_undefined (get_prop option_ options)) then set_prop claim v ps else ps.

Definition expected_claims (E : Env) (options ps : props) : props :=
  let timestamp := js_or (get_prop "iat" ps) (VNum (unix_seconds E)) in
  let ps :=
    if truthy (get_prop "noTimestamp" options) then delete_prop "iat" ps
    else set_prop "iat" timestamp ps in
  let ps :=
    set_if_defined "notBefore" "nbf"
      (value_of (timespan E (get_prop "notBefore" options) timestamp)) options ps in
  let ps :=
    set_if_defined "expiresIn" "exp"
      (value_of (timespan E (get_prop "expiresIn" options) timestamp)) options ps in
  fold_left
    (fun ps entry => set_if_defined (fst entry) (snd entry) (get_prop (fst entry) options)
                       options ps)
    options_to_payload ps.

(** An object holds the claims that the options of [sign] inject. *)
Definition has_injected_claims (options ps : props) : Prop :=
  (truthy (get_prop "noTimestamp" options) = false ->
   is_undefined (get_prop "iat" ps) = false)
  /\ (is_undefined (get_prop "notBefore" options) = false ->
      is_undefined (get_prop "nbf" ps) = false)
  /\ (is_undefined (get_prop "expiresIn" options) = false ->
      is_undefined (get_prop "exp" ps) = false)
  /\ (forall key claim, In (key, claim) options_to_payload ->
      is_undefined (get_prop key options) = false ->
      get_prop claim ps = get_prop key options).


(** * Properties

    ** Strings *)

Lemma text_chars s : text (chars s) = s.
Proof. apply string_of_list_ascii_of_string. Qed.

Lemma chars_text l : chars (text l) = l.
Proof. apply list_ascii_of_string_of_list_ascii. Qed.

Lemma chars_app s t : chars (s +:+ t) = chars s ++ chars t.
Proof. induction s as [|c s IH]; simpl; [done|]. by rewrite <- IH. Qed.

Lemma text_app l k : text (l ++ k) = text l +:+ text k.
Proof. induction l as [|c l IH]; simpl; [done|]. by rewrite IH. Qed.

Lemma length_chars s : length (chars s) = String.length s.
Proof. induction s as [|c s IH]; simpl; [done|]. by rewrite IH. Qed.


(** ** Base64 *)

Module Base64Facts.
Import Base64.

(** Induction three bytes at a time, as [btoa] reads its input. *)
Lemma list_ind3 {A} (P : list A -> Prop) :
  P [] ->
  (forall a, P [a]) ->
  (forall a b, P [a; b]) ->
  (forall a b c l, P l -> P (a :: b :: c :: l)) ->
  forall l, P l.
Proof.
  intros H0 H1 H2 H3.
  fix IH 1. intros [|a [|b [|c l]]];
    [apply H0 | apply H1 | apply H2 | apply H3, IH].
Qed.

(** Induction four symbols at a time, as [atob] reads its input. *)
Lemma list_ind4 {A} (P : list A -> Prop) :
  P [] ->
  (forall a, P [a]) ->
  (forall a b, P [a; b]) ->
  (forall a b c, P [a; b; c]) ->
  (forall a b c d l, P l -> P (a :: b :: c :: d :: l)) ->
  forall l, P l.
Proof.
  intros H0 H1 H2 H3 H4.
  fix IH 1. intros [|a [|b [|c [|d l]]]];
    [apply H0 | apply H1 | apply H2 | apply H3 | apply H4, IH].
Qed.

Lemma sextet_of_char_of_sextet s : sextet_of_char (char_of_sextet s) = Some s.
Proof. destruct s as [[] [] [] [] [] []]; reflexivity. Qed.

Lemma char_of_sextet_of_char c s : sextet_of_char c = Some s -> char_of_sextet s = c.
Proof.
  destruct c as [[] [] [] [] [] [] [] []]; vm_compute; intros H;
    try discriminate H; injection H as <-; reflexivity.
Qed.

Lemma decode4_encode3 a b c :
  let '(s0, s1, s2, s3) := encode3 a b c in decode4 s0 s1 s2 s3 = (a, b, c).
Proof. destruct a, b, c; reflexivity. Qed.

Lemma bytes_of_sextets_of_bytes l : bytes_of_sextets (sextets_of_bytes l) = l.
Proof.
  induction l as [|a|a b|a b c l IH] using list_ind3.
  - reflexivity.
  - destruct a; reflexivity.
  - destruct a, b; reflexivity.
  - destruct a, b, c; cbn [sextets_of_bytes encode3 bytes_of_sextets decode4].
    by rewrite IH.
Qed.

Lemma length_sextets_of_bytes l :
  (length (sextets_of_bytes l) mod 4)%nat <> 1%nat.
Proof.
  induction l as [|a|a b|a b c l IH] using list_ind3.
  - done.
  - destruct a; done.
  - destruct a, b; done.
  - destruct a, b, c; cbn [sextets_of_bytes encode3 length].
    change (S (S (S (S ?n)))) with (4 + n)%nat.
    replace (4 + length (sextets_of_bytes l))%nat
      with (length (sextets_of_bytes l) + 1 * 4)%nat by lia.
    by rewrite Nat.Div0.mod_add.
Qed.

Lemma sextets_of_chars_map l :
  sextets_of_chars (map char_of_sextet l) = Some l.
Proof.
  induction l as [|s l IH]; simpl; [done|].
  by rewrite sextet_of_char_of_sextet, IH.
Qed.

Lemma char_of_sextet_not_whitespace s : is_ascii_whitespace (char_of_sextet s) = false.
Proof. destruct s as [[] [] [] [] [] []]; reflexivity. Qed.

Lemma char_of_sextet_not_pad s : char_of_sextet s <> "="%char.
Proof. destruct s as [[] [] [] [] [] []]; discriminate. Qed.

End Base64Facts.

(** ** The base64url codec of [utils/] *)

Section Base64Url.
Import Base64 Base64Facts.

(** What the three [replace] calls of [base64UrlStringify] do to one
    character of the output of [btoa], and what the first two of
    [base64UrlParse] do to one character of its input. *)
Definition to_url (c : ascii) : ascii :=
  let c := if Ascii.eqb c "+" then "-"%char else c in
  if Ascii.eqb c "/" then "_"%char else c.

Definition of_url (c : ascii) : ascii :=
  let c := if Ascii.eqb c "-" then "+"%char else c in
  if Ascii.eqb c "_" then "/"%char else c.

Lemma replace_to_url s :
  replace_char "/" "_" (replace_char "+" "-" s) = text (map to_url (chars s)).
Proof. unfold replace_char. rewrite chars_text, map_map. reflexivity. Qed.

Lemma replace_of_url s :
  replace_char "_" "/" (replace_char "-" "+" s) = text (map of_url (chars s)).
Proof. unfold replace_char. rewrite chars_text, map_map. reflexivity. Qed.

Lemma of_url_to_url s : of_url (to_url (char_of_sextet s)) = char_of_sextet s.
Proof. destruct s as [[] [] [] [] [] []]; reflexivity. Qed.

Lemma to_url_not_space s rest : Utf8.space_length (to_url (char_of_sextet s) :: rest) = None.
Proof.
  destruct rest as [|c1 [|c2 rest]];
    destruct s as [[] [] [] [] [] []]; reflexivity.
Qed.

Lemma char_not_space s rest : Utf8.space_length (char_of_sextet s :: rest) = None.
Proof.
  destruct rest as [|c1 [|c2 rest]];
    destruct s as [[] [] [] [] [] []]; reflexivity.
Qed.

Lemma remove_whitespace_chars q :
  Utf8.remove_whitespace_from 0 (map char_of_sextet q) = map char_of_sextet q.
Proof.
  induction q as [|s q IH]; [done|].
  cbn [map Utf8.remove_whitespace_from]. fold (map char_of_sextet q).
  by rewrite char_not_space, IH.
Qed.

Lemma filter_whitespace_chars q :
  filter (fun c => negb (is_ascii_whitespace c)) (map char_of_sextet q)
  = map char_of_sextet q.
Proof.
  induction q as [|s q IH]; [done|].
  cbn [map]. rewrite filter_cons.
  rewrite char_of_sextet_not_whitespace. cbn.
  case_decide; [by f_equal | done].
Qed.

Lemma strip_padding_chars q :
  strip_padding (map char_of_sextet q) = map char_of_sextet q.
Proof.
  unfold strip_padding. rewrite <- map_rev.
  destruct (rev q) as [|s r]; [done|].
  destruct s as [[] [] [] [] [] []]; reflexivity.
Qed.

(** [atob] on a run of symbols of the alphabet. *)
Lemma atob_chars q :
  (length q mod 4)%nat <> 1%nat ->
  atob (text (map char_of_sextet q)) = Ok (text (bytes_of_sextets q)).
Proof.
  intros Hlen. unfold atob.
  rewrite chars_text, filter_whitespace_chars.
  assert (Hstrip :
    (if (length (map char_of_sextet q) mod 4 =? 0)%nat
     then strip_padding (map char_of_sextet q) else map char_of_sextet q)
    = map char_of_sextet q).
  { destruct (_ =? _)%nat; [apply strip_padding_chars | done]. }
  rewrite Hstrip, length_map.
  destruct (length q mod 4 =? 1)%nat eqn:E.
  - apply Nat.eqb_eq in E. done.
  - by rewrite sextets_of_chars_map.
Qed.

Lemma remove_pad_chars q n :
  filter (fun x => negb (Ascii.eqb x "=")) (map char_of_sextet q ++ padding n)
  = map char_of_sextet q.
Proof.
  rewrite filter_app.
  assert (Hpad : filter (fun x => negb (Ascii.eqb x "=")) (padding n) = []).
  { unfold padding. destruct (n mod 3)%nat as [|[|[|k]]]; reflexivity. }
  rewrite Hpad, app_nil_r.
  induction q as [|s q IH]; [done|].
  cbn [map]. rewrite filter_cons.
  pose proof (char_of_sextet_not_pad s) as Hs.
  apply Ascii.eqb_neq in Hs. rewrite Hs. cbn.
  case_decide; [by f_equal | done].
Qed.

(** The symbols [base64UrlStringify] writes. *)
Lemma base64UrlStringify_chars a :
  base64UrlStringify a
  = text (map to_url (map char_of_sextet
                        (sextets_of_bytes (chars (string_of_list_byte a))))).
Proof.
  unfold base64UrlStringify. rewrite replace_to_url.
  unfold remove_char, btoa. by rewrite !chars_text, remove_pad_chars.
Qed.

(** [base64UrlParse] on a run of symbols of the URL-safe alphabet. *)
Lemma base64UrlParse_chars q :
  (length q mod 4)%nat <> 1%nat ->
  base64UrlParse (text (map to_url (map char_of_sextet q)))
  = Ok (list_byte_of_string (text (bytes_of_sextets q))).
Proof.
  intros Hlen. unfold base64UrlParse.
  rewrite replace_of_url, chars_text, !map_map.
  rewrite (map_ext _ char_of_sextet of_url_to_url).
  unfold Utf8.remove_whitespace. rewrite chars_text, remove_whitespace_chars.
  by rewrite atob_chars.
Qed.

(** Decoding an encoding gives the bytes back. *)
Lemma base64UrlParse_Stringify a : base64UrlParse (base64UrlStringify a) = Ok a.
Proof.
  rewrite base64UrlStringify_chars, base64UrlParse_chars
    by apply length_sextets_of_bytes.
  rewrite bytes_of_sextets_of_bytes, text_chars.
  by rewrite list_byte_of_string_of_list_byte.
Qed.

Lemma sextets_of_bytes_of_sextets q :
  (length q mod 4)%nat <> 1%nat -> canonical q = true ->
  sextets_of_bytes (bytes_of_sextets q) = q.
Proof.
  induction q as [|a|a b|a b c|a b c d q IH] using list_ind4; intros Hlen Hcan.
  - reflexivity.
  - done.
  - destruct a as [? ? ? ? ? ?], b as [? ? x3 x2 x1 x0]. cbn in Hcan.
    destruct x3, x2, x1, x0; try discriminate Hcan. reflexivity.
  - destruct a as [? ? ? ? ? ?], b as [? ? ? ? ? ?], c as [? ? ? ? x1 x0].
    cbn in Hcan. destruct x1, x0; try discriminate Hcan. reflexivity.
  - destruct a, b, c, d. cbn [bytes_of_sextets decode4 sextets_of_bytes encode3].
    rewrite IH; [done | | done].
    intros H. apply Hlen. cbn [length].
    change (S (S (S (S (length q))))) with (4 + length q)%nat.
    replace (4 + length q)%nat with (length q + 1 * 4)%nat by lia.
    by rewrite Nat.Div0.mod_add.
Qed.

Lemma jws_char_sextet c :
  jws_char c = true ->
  exists s, sextet_of_char (Buffer.unurl c) = Some s /\ to_url (char_of_sextet s) = c.
Proof.
  destruct c as [[] [] [] [] [] [] [] []]; intros H; try discriminate H;
    eexists; split; reflexivity.
Qed.

Lemma known_sextets_chars l :
  forallb jws_char l = true ->
  map to_url (map char_of_sextet (Buffer.known_sextets l)) = l
  /\ length (Buffer.known_sextets l) = length l.
Proof.
  induction l as [|c l IH]; [done|].
  cbn [forallb]. intros [Hc Hl]%andb_true_iff.
  destruct (jws_char_sextet c Hc) as (s & Hs & Hurl).
  destruct (IH Hl) as [IH1 IH2].
  cbn [Buffer.known_sextets]. rewrite Hs. cbn [map length].
  by rewrite Hurl, IH1, IH2.
Qed.

(** Encoding the decoding of a valid unpadded string gives it back. *)
Lemma base64UrlStringify_Parse s :
  valid_base64url s ->
  exists a, base64UrlParse s = Ok a /\ base64UrlStringify a = s.
Proof.
  intros (Hchars & Hlen & Hcan).
  destruct (known_sextets_chars _ Hchars) as [Hq Hlq].
  set (q := Buffer.known_sextets (chars s)) in *.
  assert (Hlen' : (length q mod 4)%nat <> 1%nat)
    by (by rewrite Hlq, length_chars).
  exists (list_byte_of_string (text (bytes_of_sextets q))). split.
  - rewrite <- (text_chars s) at 1. rewrite <- Hq.
    by apply base64UrlParse_chars.
  - rewrite base64UrlStringify_chars, string_of_list_byte_of_string, chars_text.
    rewrite sextets_of_bytes_of_sextets by done.
    by rewrite Hq, text_chars.
Qed.

(** The padding [decodePayload] appends. *)
Lemma decodePayload_pad_spec raw :
  match (String.length raw mod 4)%nat with
  | 0%nat => decodePayload_pad raw = Ok raw
  | 1%nat => decodePayload_pad raw = Throw (error_ "Illegal base64url string!")
  | 2%nat => decodePayload_pad raw = Ok (raw +:+ "==")
  | _ => decodePayload_pad raw = Ok (raw +:+ "=")
  end.
Proof.
  unfold decodePayload_pad.
  pose proof (Nat.mod_upper_bound (String.length raw) 4) as Hlt.
  destruct (String.length raw mod 4)%nat as [|[|[|[|k]]]]; try reflexivity. lia.
Qed.

Lemma length_append s t : String.length (s +:+ t) = (String.length s + String.length t)%nat.
Proof. induction s as [|c s IH]; simpl; [done|]. by rewrite IH. Qed.

Lemma decodePayload_pad_length raw padded :
  decodePayload_pad raw = Ok padded -> (String.length padded mod 4)%nat = 0%nat.
Proof.
  pose proof (decodePayload_pad_spec raw) as H.
  destruct (String.length raw mod 4)%nat as [|[|[|k]]] eqn:E;
    rewrite H; intros [= <-]; [done| |].
  - rewrite length_append. cbn [String.length].
    rewrite <- Nat.Div0.add_mod_idemp_l, E. reflexivity.
  - rewrite length_append. cbn [String.length].
    pose proof (Nat.mod_upper_bound (String.length raw) 4) as Hlt.
    assert (k = 0%nat) as -> by lia.
    rewrite <- Nat.Div0.add_mod_idemp_l, E. reflexivity.
Qed.

Lemma decodePayload_illegal raw :
  (String.length raw mod 4)%nat = 1%nat ->
  decodePayload raw = Throw (error_ "Illegal base64url string!").
Proof.
  intros H. unfold decodePayload.
  pose proof (decodePayload_pad_spec raw) as Hpad. rewrite H in Hpad.
  by rewrite Hpad.
Qed.

(** [base64UrlParse] rejects a run of symbols whose length is 1 modulo 4. *)
Lemma base64UrlParse_illegal s :
  forallb jws_char (chars s) = true ->
  (String.length s mod 4)%nat = 1%nat ->
  base64UrlParse s = Throw invalid_character.
Proof.
  intros Hchars Hlen.
  destruct (known_sextets_chars _ Hchars) as [Hq Hlq].
  set (q := Buffer.known_sextets (chars s)) in *.
  unfold base64UrlParse. rewrite replace_of_url, <- Hq, !map_map.
  rewrite (map_ext _ char_of_sextet of_url_to_url).
  unfold Utf8.remove_whitespace. rewrite chars_text, remove_whitespace_chars.
  unfold atob. rewrite chars_text, filter_whitespace_chars, length_map.
  rewrite Hlq, length_chars, Hlen. cbn [Nat.eqb].
  by rewrite length_map, Hlq, length_chars, Hlen.
Qed.

End Base64Url.

(** ** Programs over the store *)

Lemma state_eta st : mkState (heap st) (calls st) = st.
Proof. by destruct st. Qed.

Lemma bind_inv {A B} (m : M A) (k : A -> M B) st r st' :
  bind m k st = (r, st') ->
  (exists a st1, m st = (Ok a, st1) /\ k a st1 = (r, st'))
  \/ (exists e, m st = (Throw e, st') /\ r = Throw e).
Proof.
  unfold bind. destruct (m st) as [[a|e] st1]; intros H.
  - left. eauto.
  - right. injection H as <- <-. eauto.
Qed.

Lemma bind_ok {A B} (m : M A) (k : A -> M B) st a st1 :
  m st = (Ok a, st1) -> bind m k st = k a st1.
Proof. unfold bind. by intros ->. Qed.

Lemma bind_throw {A B} (m : M A) (k : A -> M B) st e st1 :
  m st = (Throw e, st1) -> bind m k st = (Throw e, st1).
Proof. unfold bind. by intros ->. Qed.

(** *** A program that leaves an object alone *)

Definition frame {A} (l : loc) (m : M A) : Prop :=
  forall st r st', m st = (r, st') -> heap st' !! l = heap st !! l.

Lemma frame_ret {A} l (a : A) : frame l (ret a).
Proof. intros st r st' [= <- <-]. done. Qed.

Lemma frame_throw {A} l e : frame l (@throw A e).
Proof. intros st r st' [= <- <-]. done. Qed.

Lemma frame_lift {A} l (x : result A) : frame l (lift x).
Proof. intros st r st' [= <- <-]. done. Qed.

Lemma frame_bind {A B} l (m : M A) (k : A -> M B) :
  frame l m -> (forall a, frame l (k a)) -> frame l (bind m k).
Proof.
  intros Hm Hk st r st' H.
  destruct (bind_inv _ _ _ _ _ H) as [(a & st1 & H1 & H2) | (e & H1 & _)].
  - rewrite (Hk _ _ _ _ H2). eauto.
  - eauto.
Qed.

Lemma frame_when l c m : frame l m -> frame l (when c m).
Proof. destruct c; [done|]. intros _. apply frame_ret. Qed.

Lemma frame_load l l' : frame l (load l').
Proof.
  intros st r st'. unfold load.
  destruct (heap st !! l'); intros [= <- <-]; done.
Qed.

Lemma frame_store l l' ps : l' <> l -> frame l (store l' ps).
Proof.
  intros Hne st r st' [= <- <-]. cbn. by rewrite lookup_insert_ne.
Qed.

Lemma frame_record_call l c : frame l (record_call c).
Proof. intros st r st' [= <- <-]. done. Qed.

Lemma frame_payload_value l p : frame l (payload_value p).
Proof.
  destruct p; try apply frame_ret.
  apply frame_bind; [apply frame_load | intros; apply frame_ret].
Qed.

Lemma frame_payload_get l p k : frame l (payload_get p k).
Proof.
  apply frame_bind; [apply frame_payload_value | intros; apply frame_lift].
Qed.

Lemma frame_payload_set l l' k v : l' <> l -> frame l (payload_set (PObject l') k v).
Proof.
  intros Hne. apply frame_bind; [apply frame_load | intros; by apply frame_store].
Qed.

Lemma frame_payload_delete l l' k : l' <> l -> frame l (payload_delete (PObject l') k).
Proof.
  intros Hne. apply frame_bind; [apply frame_load | intros; by apply frame_store].
Qed.

Lemma frame_forEachM {A} l (f : A -> M unit) xs :
  (forall x, frame l (f x)) -> frame l (forEachM f xs).
Proof.
  intros Hf. induction xs as [|x xs IH]; cbn.
  - apply frame_ret.
  - apply frame_bind; [apply Hf | intros; apply IH].
Qed.

Lemma frame_call_importKey l E fmt data alg usage :
  frame l (call_importKey E fmt data alg usage).
Proof. apply frame_bind; [apply frame_record_call | intros; apply frame_lift]. Qed.

Lemma frame_call_sign l E alg key input : frame l (call_sign E alg key input).
Proof. apply frame_bind; [apply frame_record_call | intros; apply frame_lift]. Qed.

Create HintDb frame discriminated.
#[local] Hint Resolve frame_ret frame_throw frame_lift frame_when frame_load
  frame_store frame_record_call frame_payload_value frame_payload_get
  frame_payload_set frame_payload_delete frame_forEachM frame_call_importKey
  frame_call_sign : frame.

Ltac frame_steps :=
  repeat match goal with
  | |- frame _ (bind _ _) => apply frame_bind; [|intros ?]
  | |- frame _ (when _ _) => apply frame_when
  | |- frame _ (forEachM _ _) => apply frame_forEachM; intros ?
  | |- frame _ (failure _) => apply frame_throw
  | |- frame _ (if ?c then _ else _) => destruct c
  | |- frame _ (let '(_, _) := ?x in _) => destruct x
  | |- frame _ (match ?x with Some _ => _ | None => _ end) => destruct x
  | |- frame _ _ => solve [auto with frame]
  end.

Lemma frame_copy_option l l' options entry :
  l' <> l -> frame l (copy_option options (PObject l') entry).
Proof.
  intros Hne. destruct entry as [key claim]. unfold copy_option. frame_steps.
Qed.

(** [sign_assemble] on an object writes to that object only. *)
Lemma frame_sign_assemble l l' E options :
  l' <> l -> frame l (sign_assemble E options (PObject l')).
Proof.
  intros Hne. unfold sign_assemble. cbn [payload_typeof String.eqb].
  frame_steps. by apply frame_copy_option.
Qed.

Lemma frame_sign_token l E header p secret options :
  frame l (sign_token E header p secret options).
Proof. unfold sign_token. frame_steps. Qed.

(** *** A program over one object *)

Definition same {A} (m m' : M A) : Prop := forall st, m st = m' st.

Lemma same_bind {A B} (m m' : M A) (k k' : A -> M B) :
  same m m' -> (forall a, same (k a) (k' a)) -> same (bind m k) (bind m' k').
Proof.
  intros Hm Hk st. unfold bind. rewrite Hm.
  destruct (m' st) as [[a|e] st1]; [apply Hk | done].
Qed.

Lemma same_trans {A} (m1 m2 m3 : M A) : same m1 m2 -> same m2 m3 -> same m1 m3.
Proof. intros H1 H2 st. by rewrite H1. Qed.

Lemma same_when c (m m' : M unit) : same m m' -> same (when c m) (when c m').
Proof. destruct c; [done|]. by intros _ st. Qed.

Lemma bind_assoc {A B D} (m : M A) (k : A -> M B) (k' : B -> M D) :
  same (bind (bind m k) k') (bind m (fun a => bind (k a) k')).
Proof.
  intros st. unfold bind. destruct (m st) as [[a|e] st1]; [|done].
  destruct (k a st1) as [[b|e] st2]; done.
Qed.

Lemma on_object_bind {A B} l (c : C A) (k : A -> C B) :
  same (bind (on_object l c) (fun a => on_object l (k a))) (on_object l (cbind c k)).
Proof.
  intros st. unfold bind, on_object, cbind.
  destruct (heap st !! l) as [ps|] eqn:Hl; [|done].
  destruct (c ps) as [[a|e] ps1]; [|done]. cbn.
  rewrite lookup_insert_eq. destruct (k a ps1) as [r ps2].
  by rewrite insert_insert_eq.
Qed.

Lemma on_object_get l k : same (payload_get (PObject l) k) (on_object l (cget k)).
Proof.
  intros st. unfold payload_get, payload_value, bind, load, on_object, cget, lift, ret.
  destruct (heap st !! l) as [ps|] eqn:Hl; [|done]. cbn.
  by rewrite insert_id, state_eta.
Qed.

Lemma on_object_set l k v : same (payload_set (PObject l) k v) (on_object l (cset k v)).
Proof.
  intros st. unfold payload_set, bind, load, store, on_object, cset.
  by destruct (heap st !! l).
Qed.

Lemma on_object_delete l k : same (payload_delete (PObject l) k) (on_object l (cdelete k)).
Proof.
  intros st. unfold payload_delete, bind, load, store, on_object, cdelete.
  by destruct (heap st !! l).
Qed.

(** The remaining primitives agree on a store that holds [l]; a program
    that starts by reading [l] fails on any other. *)
Definition same_at {A} (l : loc) (m m' : M A) : Prop :=
  forall st, is_Some (heap st !! l) -> m st = m' st.

Lemma same_at_same {A} l (m m' : M A) : same m m' -> same_at l m m'.
Proof. intros H st _. apply H. Qed.

Lemma on_object_allocated {A} l (c : C A) st r st' :
  is_Some (heap st !! l) -> on_object l c st = (r, st') -> is_Some (heap st' !! l).
Proof.
  intros [ps Hl]. unfold on_object. rewrite Hl.
  destruct (c ps) as [r' ps']. intros [= <- <-]. cbn.
  rewrite lookup_insert_eq. eauto.
Qed.

Lemma same_at_bind {A B} l (c : C A) (m : M A) (k : A -> C B) (k' : A -> M B) :
  same_at l m (on_object l c) ->
  (forall a, same_at l (k' a) (on_object l (k a))) ->
  same_at l (bind m k') (on_object l (cbind c k)).
Proof.
  intros Hm Hk st Hst. rewrite <- on_object_bind.
  unfold bind. rewrite (Hm st Hst).
  destruct (on_object l c st) as [[a|e] st1] eqn:E; [|done].
  apply Hk. eapply on_object_allocated; eauto.
Qed.

Lemma same_at_ret {A} l (a : A) : same_at l (ret a) (on_object l (cret a)).
Proof.
  intros st [ps Hl]. unfold on_object, cret, ret. rewrite Hl.
  by rewrite insert_id, state_eta.
Qed.

Lemma same_at_throw {A} l e : same_at l (@throw A e) (on_object l (cthrow e)).
Proof.
  intros st [ps Hl]. unfold on_object, cthrow, throw. rewrite Hl.
  by rewrite insert_id, state_eta.
Qed.

Lemma same_at_lift {A} l (r : result A) : same_at l (lift r) (on_object l (clift r)).
Proof.
  intros st [ps Hl]. unfold on_object, clift, lift. rewrite Hl.
  by rewrite insert_id, state_eta.
Qed.

Lemma same_at_when l c (m : M unit) (m' : C unit) :
  same_at l m (on_object l m') -> same_at l (when c m) (on_object l (cwhen c m')).
Proof. destruct c; [done|]. intros _. apply same_at_ret. Qed.

Ltac same_steps l :=
  repeat match goal with
  | |- same_at _ (bind _ _) (on_object _ (cbind _ _)) => apply same_at_bind; [|intros ?]
  | |- same_at _ (when _ _) _ => apply same_at_when
  | |- same_at _ (failure _) _ => apply same_at_throw
  | |- same_at _ (throw _) _ => apply same_at_throw
  | |- same_at _ (ret _) _ => apply same_at_ret
  | |- same_at _ (lift _) _ => apply same_at_lift
  | |- same_at _ (payload_get _ _) _ => apply same_at_same, on_object_get
  | |- same_at _ (payload_set _ _ _) _ => apply same_at_same, on_object_set
  | |- same_at _ (payload_delete _ _) _ => apply same_at_same, on_object_delete
  | |- same_at _ (if ?c then _ else _) (on_object _ (if ?c then _ else _)) => destruct c
  end.

Lemma on_object_ext {A} l (c c' : C A) :
  (forall ps, c ps = c' ps) -> same (on_object l c) (on_object l c').
Proof.
  intros H st. unfold on_object. destruct (heap st !! l); [|done]. by rewrite H.
Qed.

Lemma cbind_assoc {A B D} (c : C A) (k : A -> C B) (k' : B -> C D) ps :
  cbind (cbind c k) k' ps = cbind c (fun a => cbind (k a) k') ps.
Proof.
  unfold cbind. destruct (c ps) as [[a|e] ps1]; [|done].
  destruct (k a ps1) as [[b|e] ps2]; done.
Qed.

Lemma same_at_assoc {A B D} l (m : M D) (c : C A) (k : A -> C B) (k' : B -> C D) :
  same_at l m (on_object l (cbind c (fun a => cbind (k a) k'))) ->
  same_at l m (on_object l (cbind (cbind c k) k')).
Proof.
  intros H st Hst. rewrite (H st Hst).
  symmetry. apply on_object_ext. intros ps. apply cbind_assoc.
Qed.

Lemma same_at_copy_option l options entry :
  same_at l (copy_option options (PObject l) entry) (on_object l (copy_claim options entry)).
Proof.
  destruct entry as [key claim]. unfold copy_option, copy_claim.
  destruct (negb (is_undefined (get_prop key options))); same_steps l.
Qed.

Lemma same_at_forEach l options entries :
  same_at l (forEachM (copy_option options (PObject l)) entries)
    (on_object l (forEachC (copy_claim options) entries)).
Proof.
  induction entries as [|entry entries IH]; cbn [forEachM forEachC].
  - apply same_at_ret.
  - apply same_at_bind; [apply same_at_copy_option | intros; apply IH].
Qed.

(** [sign_assemble] on the object at [l] is [assemble] on its properties. *)
Lemma sign_assemble_on_object E options l :
  same_at l (sign_assemble E options (PObject l)) (on_object l (assemble E options)).
Proof.
  unfold sign_assemble, assemble, check_conflict, stamp, inject_timespan.
  change (String.eqb (payload_typeof (PObject l)) "object") with true.
  apply same_at_assoc. same_steps l.
  apply same_at_assoc. same_steps l.
  - rewrite andb_true_r. same_steps l.
  - apply same_at_forEach.
Qed.

(** *** The calls to the provider only accumulate *)

Definition extends {A} (m : M A) : Prop :=
  forall st r st', m st = (r, st') -> exists more, calls st' = calls st ++ more.

Lemma extends_ret {A} (a : A) : extends (ret a).
Proof. intros st r st' [= <- <-]. exists []. by rewrite app_nil_r. Qed.

Lemma extends_throw {A} e : extends (@throw A e).
Proof. intros st r st' [= <- <-]. exists []. by rewrite app_nil_r. Qed.

Lemma extends_lift {A} (x : result A) : extends (lift x).
Proof. intros st r st' [= <- <-]. exists []. by rewrite app_nil_r. Qed.

Lemma extends_record_call c : extends (record_call c).
Proof. intros st r st' [= <- <-]. by exists [c]. Qed.

Lemma extends_bind {A B} (m : M A) (k : A -> M B) :
  extends m -> (forall a, extends (k a)) -> extends (bind m k).
Proof.
  intros Hm Hk st r st' H.
  destruct (bind_inv _ _ _ _ _ H) as [(a & st1 & H1 & H2) | (e & H1 & _)].
  - destruct (Hm _ _ _ H1) as [more1 E1], (Hk _ _ _ _ H2) as [more2 E2].
    exists (more1 ++ more2). by rewrite E2, E1, app_assoc.
  - eauto.
Qed.

Ltac extends_steps :=
  repeat match goal with
  | |- extends (bind _ _) => apply extends_bind; [|intros ?]
  | |- extends (ret _) => apply extends_ret
  | |- extends (throw _) => apply extends_throw
  | |- extends (lift _) => apply extends_lift
  | |- extends (record_call _) => apply extends_record_call
  | |- extends (call_importKey _ _ _ _ _) => unfold call_importKey
  | |- extends (call_sign _ _ _ _) => unfold call_sign
  | |- extends (call_verify _ _ _ _ _) => unfold call_verify
  | |- extends (let '(_, _) := ?x in _) => destruct x
  | |- extends (if ?c then _ else _) => destruct c
  end.

(** ** Properties of objects *)

Lemma lookup_set_prop_eq k v ps : lookup_prop k (set_prop k v ps) = Some v.
Proof.
  induction ps as [|[k' v'] ps IH]; cbn.
  - by rewrite String.eqb_refl.
  - destruct (String.eqb k' k) eqn:E; cbn.
    + by rewrite String.eqb_refl.
    + by rewrite E.
Qed.

Lemma lookup_set_prop_ne k k' v ps :
  k <> k' -> lookup_prop k (set_prop k' v ps) = lookup_prop k ps.
Proof.
  intros Hne. induction ps as [|[k1 v1] ps IH]; cbn.
  - destruct (String.eqb k' k) eqn:E; [|done].
    apply String.eqb_eq in E. congruence.
  - destruct (String.eqb k1 k') eqn:E1; cbn.
    + apply String.eqb_eq in E1. subst k1.
      destruct (String.eqb k' k) eqn:E; [|done].
      apply String.eqb_eq in E. congruence.
    + destruct (String.eqb k1 k); [done | apply IH].
Qed.

Lemma get_set_prop_eq k v ps : get_prop k (set_prop k v ps) = v.
Proof. unfold get_prop. by rewrite lookup_set_prop_eq. Qed.

Lemma get_set_prop_ne k k' v ps : k <> k' -> get_prop k (set_prop k' v ps) = get_prop k ps.
Proof. intros. unfold get_prop. by rewrite lookup_set_prop_ne. Qed.

Lemma lookup_delete_prop_eq k ps : lookup_prop k (delete_prop k ps) = None.
Proof.
  unfold delete_prop. induction ps as [|[k' v'] ps IH]; [done|].
  rewrite filter_cons. cbn [fst].
  destruct (String.eqb k' k) eqn:E; cbn.
  - case_decide; [done | apply IH].
  - case_decide; [|done]. cbn. by rewrite E.
Qed.

Lemma lookup_delete_prop_ne k k' ps :
  k <> k' -> lookup_prop k (delete_prop k' ps) = lookup_prop k ps.
Proof.
  intros Hne. unfold delete_prop. induction ps as [|[k1 v1] ps IH]; [done|].
  rewrite filter_cons. cbn [fst].
  destruct (String.eqb k1 k') eqn:E; cbn.
  - apply String.eqb_eq in E. subst k1.
    case_decide; [done|].
    destruct (String.eqb k' k) eqn:E'; [|apply IH].
    apply String.eqb_eq in E'. congruence.
  - case_decide; [|done]. cbn. by rewrite IH.
Qed.

Lemma get_delete_prop_ne k k' ps : k <> k' -> get_prop k (delete_prop k' ps) = get_prop k ps.
Proof. intros. unfold get_prop. by rewrite lookup_delete_prop_ne. Qed.

Lemma get_set_if_defined_ne k option_ claim v options ps :
  k <> claim -> get_prop k (set_if_defined option_ claim v options ps) = get_prop k ps.
Proof.
  intros. unfold set_if_defined. destruct (negb _); [|done]. by apply get_set_prop_ne.
Qed.

Lemma get_set_if_defined_eq option_ claim v options ps :
  is_undefined (get_prop option_ options) = false ->
  get_prop claim (set_if_defined option_ claim v options ps) = v.
Proof. intros H. unfold set_if_defined. rewrite H. apply get_set_prop_eq. Qed.

(** ** The assembly of the claims *)

Lemma check_conflict_inv claim option_ options ps r ps' :
  check_conflict claim option_ options ps = (r, ps') ->
  ps' = ps
  /\ (r = Ok tt /\ (is_undefined (get_prop claim ps) = true
                    \/ is_undefined (get_prop option_ options) = true)
      \/ r = Throw (error_ (conflict_message option_ claim))
         /\ is_undefined (get_prop claim ps) = false
         /\ is_undefined (get_prop option_ options) = false).
Proof.
  unfold check_conflict, cbind, cget, cwhen, cthrow, cret.
  destruct (is_undefined (get_prop claim ps)), (is_undefined (get_prop option_ options));
    cbn; intros [= <- <-]; split; auto.
Qed.

Lemma inject_timespan_ok E options option_ claim timestamp ps ps' :
  inject_timespan E options option_ claim timestamp ps = (Ok tt, ps') ->
  ps' = set_if_defined option_ claim
          (value_of (timespan E (get_prop option_ options) timestamp)) options ps
  /\ (is_undefined (get_prop option_ options) = false ->
      exists v, timespan E (get_prop option_ options) timestamp = Ok v
                /\ is_undefined v = false).
Proof.
  unfold inject_timespan, set_if_defined, cwhen.
  destruct (is_undefined (get_prop option_ options)) eqn:Hopt; cbn [negb].
  - intros [= <-]. split; [done | discriminate].
  - unfold cbind, clift, cset, cget, cthrow, cret.
    destruct (timespan E _ timestamp) as [v|e]; cbn; [|discriminate].
    rewrite get_set_prop_eq.
    destruct (is_undefined v) eqn:Hv; [discriminate|].
    intros [= <-]. split; [done|]. eauto.
Qed.

Definition copy_step (options : props) (ps : props) (entry : string * string) : props :=
  set_if_defined (fst entry) (snd entry) (get_prop (fst entry) options) options ps.

Lemma forEachC_copy_ok options entries ps ps' :
  forEachC (copy_claim options) entries ps = (Ok tt, ps') ->
  ps' = fold_left (copy_step options) entries ps.
Proof.
  revert ps. induction entries as [|[key claim] entries IH]; intros ps; cbn [forEachC fold_left].
  - by intros [= <-].
  - unfold cbind at 1. unfold copy_claim, copy_step at 2, set_if_defined. cbn [fst snd].
    destruct (is_undefined (get_prop key options)); cbn [negb].
    + unfold cret. apply IH.
    + unfold cbind, cget, cthrow, cset.
      destruct (is_undefined (get_prop claim ps)); cbn [negb]; [apply IH | discriminate].
Qed.

(** What a successful assembly leaves in the object. *)
Lemma assemble_ok E options ps ps' :
  assemble E options ps = (Ok tt, ps') ->
  ps' = expected_claims E options ps
  /\ validateOptions (VObj options) = Ok tt
  /\ (is_undefined (get_prop "notBefore" options) = false ->
      exists v, timespan E (get_prop "notBefore" options)
                  (js_or (get_prop "iat" ps) (VNum (unix_seconds E))) = Ok v
                /\ is_undefined v = false)
  /\ (is_undefined (get_prop "expiresIn" options) = false ->
      exists v, timespan E (get_prop "expiresIn" options)
                  (js_or (get_prop "iat" ps) (VNum (unix_seconds E))) = Ok v
                /\ is_undefined v = false).
Proof.
  unfold assemble. unfold cbind at 1.
  destruct (check_conflict "exp" _ _ ps) as [r1 ps1] eqn:H1.
  apply check_conflict_inv in H1 as [-> [[-> _]|[-> _]]]; [|discriminate].
  unfold cbind at 1.
  destruct (check_conflict "nbf" _ _ ps) as [r2 ps2] eqn:H2.
  apply check_conflict_inv in H2 as [-> [[-> _]|[-> _]]]; [|discriminate].
  unfold cbind at 1, clift at 1.
  destruct (validateOptions (VObj options)) as [[]|e] eqn:Hv; cbn [try_catch]; [|discriminate].
  unfold cbind at 1, cget at 1.
  set (timestamp := js_or (get_prop "iat" ps) (VNum (unix_seconds E))).
  unfold cbind at 1.
  destruct (stamp options timestamp ps) as [r3 ps3] eqn:H3.
  assert (r3 = Ok tt /\ ps3 = if truthy (get_prop "noTimestamp" options)
                                then delete_prop "iat" ps else set_prop "iat" timestamp ps)
    as [-> ->].
  { unfold stamp in H3. destruct (truthy _); by injection H3 as <- <-. }
  unfold cbind at 1.
  destruct (inject_timespan E options "notBefore" "nbf" timestamp _) as [[[]|e4] ps4] eqn:H4;
    [|discriminate].
  apply inject_timespan_ok in H4 as [-> Hnbf].
  unfold cbind at 1.
  destruct (inject_timespan E options "expiresIn" "exp" timestamp _) as [[[]|e5] ps5] eqn:H5;
    [|discriminate].
  apply inject_timespan_ok in H5 as [-> Hexp].
  intros H6. apply forEachC_copy_ok in H6 as ->.
  done.
Qed.

(** ** [sign], phase by phase *)

Definition secret_missing (secret : value) (options : props) : bool :=
  negb (truthy secret) && is_not_none (get_prop "algorithm" options).

(** [sign_payload] on an object of the store. *)
Lemma sign_payload_object l ps secret options st :
  heap st !! l = Some ps ->
  sign_payload (PObject l) secret options st =
    if secret_missing secret options
    then (Throw (error_ "secretOrPrivateKey must have a value"), st)
    else match validatePayload (VObj ps) with
         | Throw e => (Throw e, st)
         | Ok _ =>
             if truthy (get_prop "mutatePayload" options)
             then (Ok (PObject l), st)
             else let l' := fresh (dom (heap st)) in
                  (Ok (PObject l'), mkState (<[l' := ps]> (heap st)) (calls st))
         end.
Proof.
  intros Hl. unfold sign_payload, secret_missing.
  change (String.eqb (payload_typeof (PObject l)) "undefined") with false.
  change (String.eqb (payload_typeof (PObject l)) "object") with true.
  cbn match.
  destruct (negb (truthy secret) && _); cbn [when]; [done|].
  unfold bind at 1. unfold ret at 1.
  unfold bind at 1. unfold payload_value, bind at 1, load. rewrite Hl. unfold ret at 1.
  unfold bind, lift.
  destruct (validatePayload (VObj ps)) as [[]|e]; cbn [try_catch]; [|done].
  destruct (truthy (get_prop "mutatePayload" options)); cbn [negb]; [done|].
  unfold payload_copy, bind, load, alloc, ret. by rewrite Hl.
Qed.

Lemma fresh_location (st : state) l ps :
  heap st !! l = Some ps -> fresh (dom (heap st)) <> l.
Proof.
  intros Hl Heq.
  apply (is_fresh (dom (heap st))). rewrite Heq.
  apply elem_of_dom. eauto.
Qed.

(** The object [sign] works on: the caller's, or a copy of it at a new
    location. *)
Lemma sign_payload_working l ps secret options st w st1 :
  heap st !! l = Some ps ->
  sign_payload (PObject l) secret options st = (Ok w, st1) ->
  exists lw, w = PObject lw
    /\ heap st1 !! lw = Some ps
    /\ heap st1 !! l = Some ps
    /\ calls st1 = calls st
    /\ validatePayload (VObj ps) = Ok tt
    /\ secret_missing secret options = false
    /\ (if truthy (get_prop "mutatePayload" options) then lw = l /\ st1 = st else lw <> l).
Proof.
  intros Hl. rewrite (sign_payload_object _ _ _ _ _ Hl).
  destruct (secret_missing secret options); [discriminate|].
  destruct (validatePayload (VObj ps)) as [[]|e]; [|discriminate].
  destruct (truthy (get_prop "mutatePayload" options)).
  - intros [= <- <-]. exists l. eauto 10.
  - intros [= <- <-]. pose proof (fresh_location st l ps Hl) as Hne.
    exists (fresh (dom (heap st))). cbn.
    rewrite lookup_insert_eq, lookup_insert_ne by done. eauto 10.
Qed.

Lemma sign_payload_failed l ps secret options st e st1 :
  heap st !! l = Some ps ->
  sign_payload (PObject l) secret options st = (Throw e, st1) -> st1 = st.
Proof.
  intros Hl. rewrite (sign_payload_object _ _ _ _ _ Hl).
  destruct (secret_missing secret options); [by intros [= <- <-]|].
  destruct (validatePayload (VObj ps)) as [[]|e']; [|by intros [= <- <-]].
  destruct (truthy (get_prop "mutatePayload" options)); discriminate.
Qed.

(** [sign_assemble] on the working object, through [assemble]. *)
Lemma sign_assemble_run E options l ps st :
  heap st !! l = Some ps ->
  sign_assemble E options (PObject l) st =
    let '(r, ps') := assemble E options ps in
    (r, mkState (<[l := ps']> (heap st)) (calls st)).
Proof.
  intros Hl. rewrite sign_assemble_on_object by eauto.
  unfold on_object. by rewrite Hl.
Qed.

(** The claims [sign] has assembled when it returns a token, and where
    they are. *)
Lemma sign_ok E l ps secret options st token st' :
  heap st !! l = Some ps ->
  sign E (PObject l) secret options st = (Ok token, st') ->
  let opts := sign_options options in
  exists lw st2,
    assemble E opts ps = (Ok tt, expected_claims E opts ps)
    /\ heap st2 !! lw = Some (expected_claims E opts ps)
    /\ (if truthy (get_prop "mutatePayload" opts) then lw = l else lw <> l)
    /\ validatePayload (VObj ps) = Ok tt
    /\ secret_missing secret opts = false
    /\ sign_token E (sign_header (PObject l) opts) (PObject lw) secret opts st2
       = (Ok token, st').
Proof.
  intros Hl Hsign opts. unfold sign in Hsign. fold opts in Hsign.
  apply bind_inv in Hsign as [(w & st1 & Hp & Hrest) | (e & _ & [=])].
  destruct (sign_payload_working _ _ _ _ _ _ _ Hl Hp)
    as (lw & -> & Hlw & Hl1 & Hcalls & Hvalid & Hsecret & Hmut).
  apply bind_inv in Hrest as [([] & st2 & Ha & Htoken) | (e & _ & [=])].
  rewrite (sign_assemble_run _ _ _ _ _ Hlw) in Ha.
  destruct (assemble E opts ps) as [r ps'] eqn:Hasm.
  injection Ha as -> <-.
  destruct (assemble_ok _ _ _ _ Hasm) as [-> _].
  exists lw, (mkState (<[lw := expected_claims E opts ps]> (heap st1)) (calls st1)).
  cbn [heap]. rewrite lookup_insert_eq.
  destruct (truthy (get_prop "mutatePayload" opts)); [destruct Hmut as [-> ->]|]; eauto 10.
Qed.

Lemma bind_inv_ok {A B} (m : M A) (k : A -> M B) st b st' :
  bind m k st = (Ok b, st') ->
  exists a st1, m st = (Ok a, st1) /\ k a st1 = (Ok b, st').
Proof.
  intros H. apply bind_inv in H as [H | (e & _ & [=])]. exact H.
Qed.

Lemma lift_inv_ok {A} (r : result A) st a st' :
  lift r st = (Ok a, st') -> r = Ok a /\ st' = st.
Proof. by intros [= -> <-]. Qed.

Lemma append_assoc (a b c : string) : (a +:+ b) +:+ c = a +:+ (b +:+ c).
Proof.
  induction a as [|x a IH]; [done|].
  change (String x ((a +:+ b) +:+ c) = String x (a +:+ b +:+ c)). by rewrite IH.
Qed.

(** A successful [sign_assemble] has validated the options. *)
Lemma sign_assemble_validated E options w st st' :
  sign_assemble E options w st = (Ok tt, st') ->
  validateOptions (VObj options) = Ok tt.
Proof.
  unfold sign_assemble. intros H.
  apply bind_inv_ok in H as (exp & st1 & _ & H).
  apply bind_inv_ok in H as ([] & st2 & _ & H).
  apply bind_inv_ok in H as (nbf & st3 & _ & H).
  apply bind_inv_ok in H as ([] & st4 & _ & H).
  apply bind_inv_ok in H as ([] & st5 & Hv & _).
  apply lift_inv_ok in Hv as [Hv _].
  by destruct (validateOptions (VObj options)) as [[]|e].
Qed.

(** The token a successful [sign_token] returns. *)
Lemma sign_token_ok E header w secret options st token st' :
  sign_token E header w secret options st = (Ok token, st') ->
  exists v st1 hb pb sig,
    payload_value w st = (Ok v, st1)
    /\ utf8ToUint8Array (JSON_stringify (VObj header)) = Ok hb
    /\ utf8ToUint8Array (JSON_stringify v) = Ok pb
    /\ token = base64UrlStringify hb +:+ "." +:+ base64UrlStringify pb
               +:+ "." +:+ base64UrlStringify sig.
Proof.
  unfold sign_token. intros H.
  apply bind_inv_ok in H as (v & st1 & Hv & H).
  apply bind_inv_ok in H as (hb & st2 & [Hhb ->]%lift_inv_ok & H).
  apply bind_inv_ok in H as (pb & st3 & [Hpb ->]%lift_inv_ok & H).
  apply bind_inv_ok in H as ([keyFormat keyData] & st4 & _ & H).
  apply bind_inv_ok in H as (alg & st5 & _ & H).
  apply bind_inv_ok in H as (key & st6 & _ & H).
  apply bind_inv_ok in H as (input & st7 & _ & H).
  apply bind_inv_ok in H as (sig & st8 & _ & H).
  injection H as <- _.
  exists v, st1, hb, pb, sig. by rewrite !append_assoc.
Qed.

Lemma forEach_ok {A} (f : A -> result unit) xs x :
  forEach f xs = Ok tt -> In x xs -> f x = Ok tt.
Proof.
  induction xs as [|y xs IH]; cbn; [done|].
  destruct (f y) as [[]|e] eqn:E; cbn; [|discriminate].
  intros H [->|Hin]; auto.
Qed.

Lemma keys_set_prop k k' v ps : In k (keys ps) -> In k (keys (set_prop k' v ps)).
Proof.
  unfold keys. induction ps as [|[k1 v1] ps IH]; cbn; [done|].
  destruct (String.eqb k1 k') eqn:E; cbn.
  - apply String.eqb_eq in E. subst. tauto.
  - intros [->|H]; auto.
Qed.

Lemma keys_assign k target source : In k (keys target) -> In k (keys (assign target source)).
Proof.
  unfold assign. revert target.
  induction source as [|[k1 v1] source IH]; intros target H; cbn; [done|].
  apply IH. by apply keys_set_prop.
Qed.

(** Options that pass [validateOptions] name a supported algorithm. *)
Lemma validated_algorithm options :
  validateOptions (VObj (sign_options options)) = Ok tt ->
  includes SUPPORTED_ALGS (get_prop "algorithm" (sign_options options)) = true.
Proof.
  unfold validateOptions, validate. cbn [isPlainObject negb]. intros H.
  assert (Hin : In "algorithm" (keys (sign_options options))).
  { unfold sign_options. apply keys_assign. cbn. auto. }
  pose proof (forEach_ok _ _ _ H Hin) as Hk.
  unfold validate_key in Hk.
  destruct (schema_entry "algorithm" sign_options_schema) as [v|] eqn:Hs;
    [|discriminate Hs].
  lazy [schema_entry sign_options_schema String.eqb Ascii.eqb Bool.eqb] in Hs.
  injection Hs as <-. cbn [isValid] in Hk.
  by destruct (includes SUPPORTED_ALGS (get_prop "algorithm" (sign_options options))).
Qed.

(** [Object.assign]: the fields of the source win, the others stay. *)
Lemma lookup_assign_None k target source :
  lookup_prop k source = None ->
  lookup_prop k (assign target source) = lookup_prop k target.
Proof.
  unfold assign. revert target.
  induction source as [|[k1 v1] source IH]; intros target; cbn; [done|].
  destruct (String.eqb k1 k) eqn:E; [discriminate|].
  intros H. rewrite IH by done.
  apply lookup_set_prop_ne. by apply String.eqb_neq in E.
Qed.

Lemma lookup_prop_key k v ps : lookup_prop k ps = Some v -> k ∈ keys ps.
Proof.
  unfold keys. induction ps as [|[k1 v1] ps IH]; cbn; [done|].
  destruct (String.eqb k1 k) eqn:E.
  - apply String.eqb_eq in E. subst. intros _. apply elem_of_cons. by left.
  - intros H. apply elem_of_cons. right. by apply IH.
Qed.

Lemma lookup_assign_Some k v target source :
  NoDup (keys source) ->
  lookup_prop k source = Some v ->
  lookup_prop k (assign target source) = Some v.
Proof.
  revert target.
  induction source as [|[k1 v1] source IH]; intros target Hnd; [done|].
  change (keys ((k1, v1) :: source)) with (k1 :: keys source) in Hnd.
  apply NoDup_cons in Hnd as [Hnotin Hnd].
  change (assign target ((k1, v1) :: source))
    with (assign (set_prop k1 v1 target) source).
  cbn [lookup_prop].
  destruct (String.eqb k1 k) eqn:E.
  - apply String.eqb_eq in E. subst k1. intros [= ->].
    rewrite lookup_assign_None; [apply lookup_set_prop_eq|].
    destruct (lookup_prop k source) eqn:Hl; [|done].
    exfalso. apply Hnotin. by eapply lookup_prop_key.
  - intros H. by apply IH.
Qed.

(** ** The injected claims *)

Lemma truthy_defined v : truthy v = true -> is_undefined v = false.
Proof. by destruct v. Qed.

Lemma js_or_defined a n : is_undefined (js_or a (VNum n)) = false.
Proof. unfold js_or. destruct (truthy a) eqn:E; [by apply truthy_defined | done]. Qed.

Ltac get_through :=
  repeat first
    [ rewrite get_set_if_defined_ne by discriminate
    | rewrite get_set_prop_ne by discriminate
    | rewrite get_delete_prop_ne by discriminate ].

Lemma expected_claims_iat E options ps :
  truthy (get_prop "noTimestamp" options) = false ->
  get_prop "iat" (expected_claims E options ps)
  = js_or (get_prop "iat" ps) (VNum (unix_seconds E)).
Proof.
  intros Hts. unfold expected_claims. cbn [fold_left options_to_payload fst snd].
  get_through. rewrite Hts. apply get_set_prop_eq.
Qed.

Lemma expected_claims_nbf E options ps :
  is_undefined (get_prop "notBefore" options) = false ->
  get_prop "nbf" (expected_claims E options ps)
  = value_of (timespan E (get_prop "notBefore" options)
                (js_or (get_prop "iat" ps) (VNum (unix_seconds E)))).
Proof.
  intros H. unfold expected_claims. cbn [fold_left options_to_payload fst snd].
  get_through. by apply get_set_if_defined_eq.
Qed.

Lemma expected_claims_exp E options ps :
  is_undefined (get_prop "expiresIn" options) = false ->
  get_prop "exp" (expected_claims E options ps)
  = value_of (timespan E (get_prop "expiresIn" options)
                (js_or (get_prop "iat" ps) (VNum (unix_seconds E)))).
Proof.
  intros H. unfold expected_claims. cbn [fold_left options_to_payload fst snd].
  get_through. by apply get_set_if_defined_eq.
Qed.

Lemma expected_claims_copied E options ps key claim :
  In (key, claim) options_to_payload ->
  is_undefined (get_prop key options) = false ->
  get_prop claim (expected_claims E options ps) = get_prop key options.
Proof.
  intros Hin H. unfold expected_claims. cbn [fold_left options_to_payload fst snd].
  cbn in Hin.
  destruct Hin as [[= <- <-]|[[= <- <-]|[[= <- <-]|[[= <- <-]|[]]]]];
    get_through; by apply get_set_if_defined_eq.
Qed.

(** A claim that is not a registered one is as it was. *)
Definition registered_claim (k : string) : bool :=
  in_strings k ["iat"; "nbf"; "exp"; "aud"; "iss"; "sub"; "jti"].

Lemma expected_claims_other E options ps k :
  registered_claim k = false ->
  lookup_prop k (expected_claims E options ps) = lookup_prop k ps.
Proof.
  intros Hk. unfold registered_claim, in_strings in Hk. cbn [existsb] in Hk.
  repeat (apply orb_false_iff in Hk as [?%String.eqb_neq Hk]).
  unfold expected_claims, set_if_defined. cbn [fold_left options_to_payload fst snd].
  repeat match goal with
  | |- context [if ?c then _ else _] => destruct c
  end;
  repeat first [ rewrite lookup_set_prop_ne by done
               | rewrite lookup_delete_prop_ne by done ]; done.
Qed.

Lemma assemble_injects E options ps ps' :
  assemble E options ps = (Ok tt, ps') -> has_injected_claims options ps'.
Proof.
  intros H. destruct (assemble_ok _ _ _ _ H) as (-> & _ & Hnbf & Hexp).
  repeat split.
  - intros Hts. rewrite expected_claims_iat by done. apply js_or_defined.
  - intros Ho. rewrite expected_claims_nbf by done.
    destruct (Hnbf Ho) as (v & -> & Hv). done.
  - intros Ho. rewrite expected_claims_exp by done.
    destruct (Hexp Ho) as (v & -> & Hv). done.
  - intros key claim. apply expected_claims_copied.
Qed.

(** ** [verify], phase by phase *)

Lemma typeof_string v : String.eqb (typeof v) "string" = true <-> exists s, v = VStr s.
Proof.
  split.
  - destruct v; try discriminate. eauto.
  - by intros [s ->].
Qed.




Lemma verify_reaches_signature E token secret options st tokenParts alg payload :
  verify_arguments token secret (verify_options options) = Ok tokenParts ->
  algorithms E (js_String (get_prop "algorithm" (verify_options options))) = Some alg ->
  verify_claims E token (verify_options options) = Ok (inr payload) ->
  verify E token secret options st = verify_signature E secret alg tokenParts payload st.
Proof.
  intros Hargs Halg Hclaims. unfold verify, verify_signature.
  unfold bind at 1, lift at 1. rewrite Hargs, Halg.
  unfold bind at 1, ret at 1.
  unfold bind at 1, lift at 1. by rewrite Hclaims.
Qed.

Lemma verify_claims_returned E token secret options st tokenParts alg r :
  verify_arguments token secret (verify_options options) = Ok tokenParts ->
  algorithms E (js_String (get_prop "algorithm" (verify_options options))) = Some alg ->
  verify_claims E token (verify_options options) = Ok (inl r) ->
  verify E token secret options st = (Ok r, st).
Proof.
  intros Hargs Halg Hclaims. unfold verify.
  unfold bind at 1, lift at 1. rewrite Hargs, Halg.
  unfold bind at 1, ret at 1.
  unfold bind at 1, lift at 1. by rewrite Hclaims.
Qed.

Lemma verify_claims_thrown E token secret options st tokenParts alg e :
  verify_arguments token secret (verify_options options) = Ok tokenParts ->
  algorithms E (js_String (get_prop "algorithm" (verify_options options))) = Some alg ->
  verify_claims E token (verify_options options) = Throw e ->
  verify E token secret options st = (Throw e, st).
Proof.
  intros Hargs Halg Hclaims. unfold verify.
  unfold bind at 1, lift at 1. rewrite Hargs, Halg.
  unfold bind at 1, ret at 1.
  unfold bind at 1, lift at 1. by rewrite Hclaims.
Qed.

(** The outcome of a failed check on the claims. *)
Definition rejection (options : props) (name : string) : result (value + value) :=
  if truthy (get_prop "throwError" options)
  then Throw (auth_token_error name)
  else Ok (inl (VBool false)).

(** The [nbf] check, on the payload [verify] has bound. *)
Lemma verify_claims_not_before E token options decoded payload n :
  decode token VUndefined = Ok decoded ->
  get decoded "payload" = Ok payload ->
  truthy payload = true ->
  get payload "nbf" = Ok (VNum n) ->
  unix_seconds E < n -> n <> 0 ->
  verify_claims E token options = rejection options "NotYetValid".
Proof.
  intros Hd Hp Ht Hnbf Hlt Hn0. unfold verify_claims, rejection.
  rewrite Hd. cbn [rbind]. rewrite Hp. cbn [rbind]. rewrite Ht. cbn [negb].
  rewrite Hnbf. cbn [rbind truthy].
  apply Z.eqb_neq in Hn0. rewrite Hn0. cbn [negb js_gt to_number rmap rbind].
  apply Z.ltb_lt in Hlt. rewrite Hlt. done.
Qed.

(** The [exp] check, for a payload without [nbf]. *)
Lemma verify_claims_expired E token options decoded payload n :
  decode token VUndefined = Ok decoded ->
  get decoded "payload" = Ok payload ->
  truthy payload = true ->
  get payload "nbf" = Ok VUndefined ->
  get payload "exp" = Ok (VNum n) ->
  n <= unix_seconds E -> n <> 0 ->
  verify_claims E token options = rejection options "TokenExpiredError".
Proof.
  intros Hd Hp Ht Hnbf Hexp Hle Hn0. unfold verify_claims, rejection.
  rewrite Hd. cbn [rbind]. rewrite Hp. cbn [rbind]. rewrite Ht. cbn [negb].
  rewrite Hnbf. cbn [rbind truthy]. rewrite Hexp. cbn [rbind truthy].
  apply Z.eqb_neq in Hn0. rewrite Hn0. cbn [negb js_le to_number rmap rbind].
  apply Z.leb_le in Hle. rewrite Hle. done.
Qed.

(** A claim that is zero is not checked. *)
Lemma verify_claims_zero E token options decoded ps :
  decode token VUndefined = Ok decoded ->
  get decoded "payload" = Ok (VObj ps) ->
  get_prop "nbf" ps = VUndefined ->
  get_prop "exp" ps = VNum 0 ->
  verify_claims E token options = Ok (inr (VObj ps)).
Proof.
  intros Hd Hp Hnbf Hexp. unfold verify_claims.
  rewrite Hd. cbn [rbind]. rewrite Hp. cbn [rbind truthy negb get].
  by rewrite Hnbf, Hexp.
Qed.

(** ** [decode] *)

(** A string that does not match [JWS_REGEX] decodes to [null]. *)
Lemma decode_not_jws s options :
  JWS_REGEX_test s = false -> decode (VStr s) options = Ok VNull.
Proof.
  intros H. unfold decode, jwsDecode, isValidJws. cbn [toString js_String].
  by rewrite H.
Qed.

(** So does one whose header segment is not the JSON text of a truthy
    value. *)
Lemma decode_bad_header s options :
  truthy (headerFromJWS s) = false -> decode (VStr s) options = Ok VNull.
Proof.
  intros H. unfold decode, jwsDecode, isValidJws. cbn [toString js_String].
  rewrite H. by rewrite andb_false_r.
Qed.

(** [decode] on a valid JWS whose payload need not be parsed by
    [jwsDecode]: the payload text, or the object it is the JSON text of. *)
Lemma decode_valid_jws s options header :
  JWS_REGEX_test s = true ->
  headerFromJWS s = header -> truthy header = true ->
  (exists typ, get header "typ" = Ok typ /\ is_JWT typ = false) ->
  (exists json, get (js_or options (VObj [])) "json" = Ok json /\ truthy json = false) ->
  (exists complete, get (js_or options (VObj [])) "complete" = Ok complete
                    /\ is_true complete = false) ->
  exists payload, decode (VStr s) options = Ok payload.
Proof.
  intros Hre Hh Ht (typ & Htyp & Hjwt) (json & Hjson & Hj) (complete & Hc & Hcf).
  unfold decode, jwsDecode, isValidJws. cbn [toString js_String].
  rewrite Hre, Hh, Ht. cbn [andb negb].
  assert (Hor : js_or (js_or options (VObj [])) (VObj []) = js_or options (VObj [])).
  { unfold js_or. destruct (truthy options) eqn:E; [by rewrite E | done]. }
  rewrite Hor, Htyp. cbn [rbind]. rewrite Hjson. cbn [rbind].
  rewrite Hjwt, Hj. cbn [orb rbind truthy negb get get_prop lookup_prop String.eqb
                          Ascii.eqb Bool.eqb].
  rewrite Hc. cbn [rbind]. rewrite Hcf. eauto.
Qed.

(** * The claims of the specification *)

(** ** Mutation of the caller's payload *)

(** C2.  [sign] on a payload object [P] leaves [P] as it was when
    [mutatePayload] is unset or false, whatever the outcome of the call;
    and when [mutatePayload] is true and [sign] returns a token, [P]
    holds the injected claims: [iat] unless [noTimestamp], [nbf] and
    [exp] when [notBefore] and [expiresIn] are set, and [aud], [iss],
    [sub], [jti] with the values of [audience], [issuer], [subject],
    [jwtid] when these are set. *)
Theorem sign_mutates_payload_on_request E l ps secret options st r st' :
  heap st !! l = Some ps ->
  sign E (PObject l) secret options st = (r, st') ->
  (truthy (get_prop "mutatePayload" (sign_options options)) = false ->
   heap st' !! l = Some ps)
  /\ (truthy (get_prop "mutatePayload" (sign_options options)) = true ->
      forall token, r = Ok token ->
      exists ps', heap st' !! l = Some ps'
                  /\ has_injected_claims (sign_options options) ps').
Proof.
  intros Hl Hsign. split.
  - intros Hmut. unfold sign in Hsign.
    apply bind_inv in Hsign as [(w & st1 & Hp & Hrest) | (e & Hp & _)].
    + destruct (sign_payload_working _ _ _ _ _ _ _ Hl Hp)
        as (lw & -> & _ & Hl1 & _ & _ & _ & Hne).
      rewrite Hmut in Hne.
      rewrite <- Hl1. revert Hrest. apply frame_bind.
      * by apply frame_sign_assemble.
      * intros ?. apply frame_sign_token.
    + by rewrite (sign_payload_failed _ _ _ _ _ _ _ Hl Hp).
  - intros Hmut token ->.
    destruct (sign_ok _ _ _ _ _ _ _ _ Hl Hsign)
      as (lw & st2 & Hasm & Hlw & Hw & _ & _ & Htoken).
    rewrite Hmut in Hw. subst lw.
    exists (expected_claims E (sign_options options) ps). split.
    + rewrite <- Hlw. revert Htoken. apply frame_sign_token.
    + eapply assemble_injects, Hasm.
Qed.

(** The second test of the sources: [{foo: 'bar'}] signed with
    [notBefore: 60], [expiresIn: 600] and [mutatePayload: true]. *)
Definition mutating_call : M string :=
  sign Reference.env Reference.caller (VStr "secret")
    (Some [("notBefore", VNum 60); ("expiresIn", VNum 600); ("mutatePayload", VBool true)]).

Lemma sign_mutates_payload_witness :
  let st := Reference.with_object [("foo", VStr "bar")] in
  exists ps', heap (snd (mutating_call st)) !! 1%positive = Some ps'
    /\ is_undefined (get_prop "nbf" ps') = false
    /\ is_undefined (get_prop "exp" ps') = false.
Proof.
  intros st.
  destruct (sign_mutates_payload_on_request Reference.env 1%positive
              [("foo", VStr "bar")] (VStr "secret")
              (Some [("notBefore", VNum 60); ("expiresIn", VNum 600);
                     ("mutatePayload", VBool true)])
              st (fst (mutating_call st)) (snd (mutating_call st)))
    as [_ Hmut].
  - reflexivity.
  - apply surjective_pairing.
  - destruct (Hmut eq_refl
                "eyJhbGciOiJIUzI1NiIsInR5cCI6IkpXVCJ9.eyJmb28iOiJiYXIiLCJpYXQiOjE3MDAwMDAwMDAsIm5iZiI6MTcwMDAwMDA2MCwiZXhwIjoxNzAwMDAwNjAwfQ.-A")
      as (ps' & Hps' & _ & Hnbf & Hexp & _).
    + vm_compute. reflexivity.
    + exists ps'. split; [exact Hps'|]. split; [apply Hnbf | apply Hexp]; reflexivity.
Defined.

(** ** Conflicts between the payload and the options *)





(** ** The checks of [verify] on its arguments *)





(** ** A [null] secret *)

Lemma verify_signature_null E alg tokenParts payload st :
  exists r st' rest,
    verify_signature E VNull alg tokenParts payload st = (r, st')
    /\ calls st' = calls st ++ CallImportKey FmtJwk (KeyObject VNull) alg UseVerify :: rest
    /\ heap st' = heap st
    /\ (forall e, importKey E FmtJwk (KeyObject VNull) alg UseVerify = Throw e ->
        r = Throw e /\ rest = []).
Proof.
  unfold verify_signature, key_material. cbn [typeof String.eqb Ascii.eqb Bool.eqb].
  unfold bind at 1, lift at 1. unfold call_importKey.
  unfold bind at 1 2. unfold record_call, lift at 1.
  destruct (importKey E FmtJwk (KeyObject VNull) alg UseVerify) as [key|e].
  - match goal with |- context [bind ?m ?k ?s] => destruct (bind m k s) as [r st'] eqn:H end.
    assert (Hext : extends
      (signature <- lift (base64UrlParse (part 2 tokenParts));;
       input <- lift (utf8ToUint8Array
                        (VStr (part 0 tokenParts +:+ "." +:+ part 1 tokenParts)));;
       ok <- call_verify E alg key signature input;;
       ret (if ok then payload else VBool false))%M) by extends_steps.
    assert (Hfr : forall l, frame l
      (signature <- lift (base64UrlParse (part 2 tokenParts));;
       input <- lift (utf8ToUint8Array
                        (VStr (part 0 tokenParts +:+ "." +:+ part 1 tokenParts)));;
       ok <- call_verify E alg key signature input;;
       ret (if ok then payload else VBool false))%M).
    { intros l. unfold call_verify. frame_steps. }
    destruct (Hext _ _ _ H) as [more Hmore]. cbn [calls] in Hmore.
    exists r, st', more. split; [done|]. split; [by rewrite Hmore, <- app_assoc|].
    split; [|discriminate].
    apply map_eq. intros l. by rewrite (Hfr l _ _ _ H).
  - exists (Throw e), (mkState (heap st)
                        (calls st ++ [CallImportKey FmtJwk (KeyObject VNull) alg UseVerify])), [].
    split; [done|]. split; [done|]. split; [done|]. by intros e' [= ->].
Qed.

(** C10.  [typeof null] is ["object"], so the check on the secret lets
    [null] through: the checks on the arguments decide as they do for a
    JWK object, never with "secret must be a string or a JWK object", and
    a call whose token, algorithm and claims pass goes on to [importKey]
    with the format ["jwk"] and the key data [null]; what [importKey]
    answers to that is the outcome of [verify]. *)
Theorem verify_null_secret_reaches_importKey E token options st tokenParts alg payload :
  verify_arguments token (VObj []) (verify_options options) = Ok tokenParts ->
  algorithms E (js_String (get_prop "algorithm" (verify_options options))) = Some alg ->
  verify_claims E token (verify_options options) = Ok (inr payload) ->
  typeof VNull = "object"
  /\ verify_arguments token VNull (verify_options options) = Ok tokenParts
  /\ exists r st' rest,
      verify E token VNull options st = (r, st')
      /\ calls st' = calls st ++ CallImportKey FmtJwk (KeyObject VNull) alg UseVerify :: rest
      /\ (forall e, importKey E FmtJwk (KeyObject VNull) alg UseVerify = Throw e ->
          r = Throw e /\ rest = []).
Proof.
  intros Hargs Halg Hclaims. split; [reflexivity|].
  assert (Hnull : verify_arguments token VNull (verify_options options) = Ok tokenParts)
    by exact Hargs.
  split; [exact Hnull|].
  rewrite (verify_reaches_signature _ _ _ _ _ _ _ _ Hnull Halg Hclaims).
  destruct (verify_signature_null E alg tokenParts payload st)
    as (r & st' & rest & H & Hcalls & _ & Himport).
  eauto 10.
Qed.

Lemma verify_null_secret_witness :
  exists st',
    verify Reference.env
      (VStr "eyJhbGciOiJIUzI1NiIsInR5cCI6IkpXVCJ9.eyJwYXlsb2FkIjp7ImV4cCI6MH19.7Q")
      VNull VUndefined (Reference.with_object [])
    = (Throw (mkError EProviderError "unsupported key"), st')
    /\ calls st' = [CallImportKey FmtJwk (KeyObject VNull)
                      (mkAlgorithm "HMAC" "SHA-256" None) UseVerify].
Proof.
  destruct (verify_null_secret_reaches_importKey Reference.env
              (VStr "eyJhbGciOiJIUzI1NiIsInR5cCI6IkpXVCJ9.eyJwYXlsb2FkIjp7ImV4cCI6MH19.7Q")
              VUndefined (Reference.with_object [])
              ["eyJhbGciOiJIUzI1NiIsInR5cCI6IkpXVCJ9"; "eyJwYXlsb2FkIjp7ImV4cCI6MH19"; "7Q"]
              (mkAlgorithm "HMAC" "SHA-256" None)
              (VObj [("exp", VNum 0)]))
    as (_ & _ & r & st' & rest & H & Hcalls & Himport).
  - vm_compute. reflexivity.
  - reflexivity.
  - vm_compute. reflexivity.
  - destruct (Himport (mkError EProviderError "unsupported key") eq_refl) as [-> ->].
    exists st'. split; [exact H | exact Hcalls].
Defined.

(** ** The header of a signed token *)

(** C9 (amended).  When [sign] returns a token, the first segment of the
    token is the base64url form of the JSON text of the header
    [{alg: options.algorithm, typ: "JWT" for an object payload and
    undefined otherwise}] merged with [options.header], whose fields win;
    [options.algorithm] is one of the supported names or ["none"]; and
    the [alg] of the header is that name whenever [options.header] does
    not define [alg]. *)
Theorem sign_header_merges_options E p secret options st token st' :
  sign E p secret options st = (Ok token, st') ->
  let opts := sign_options options in
  let defaults :=
    [("alg", get_prop "algorithm" opts);
     ("typ", if String.eqb (payload_typeof p) "object" then VStr "JWT" else VUndefined)] in
  let header := object_assign defaults (get_prop "header" opts) in
  (exists hb rest,
      utf8ToUint8Array (JSON_stringify (VObj header)) = Ok hb
      /\ token = base64UrlStringify hb +:+ "." +:+ rest)
  /\ includes SUPPORTED_ALGS (get_prop "algorithm" opts) = true
  /\ (forall hs k v,
        get_prop "header" opts = VObj hs -> NoDup (keys hs) ->
        lookup_prop k hs = Some v -> lookup_prop k header = Some v)
  /\ (forall k,
        match get_prop "header" opts with
        | VObj hs => lookup_prop k hs = None
        | _ => True
        end ->
        lookup_prop k header = lookup_prop k defaults)
  /\ (match get_prop "header" opts with
      | VObj hs => lookup_prop "alg" hs = None
      | _ => True
      end ->
      includes SUPPORTED_ALGS (get_prop "alg" header) = true).
Proof.
  intros Hsign opts defaults header. unfold sign in Hsign.
  apply bind_inv_ok in Hsign as (w & st1 & _ & Hsign).
  apply bind_inv_ok in Hsign as ([] & st2 & Hasm & Htoken).
  apply sign_assemble_validated in Hasm.
  apply sign_token_ok in Htoken as (v & st3 & hb & pb & sig & _ & Hhb & _ & ->).
  assert (Hrest : forall k,
    match get_prop "header" opts with
    | VObj hs => lookup_prop k hs = None
    | _ => True
    end -> lookup_prop k header = lookup_prop k defaults).
  { intros k Hk. unfold header, object_assign.
    destruct (get_prop "header" opts); try done. by apply lookup_assign_None. }
  split; [by eauto|].
  split; [by apply validated_algorithm|].
  split; [|split; [exact Hrest|]].
  - intros hs k v' Hhs Hnd Hk. unfold header. rewrite Hhs.
    by apply lookup_assign_Some.
  - intros Hk. unfold get_prop at 1. rewrite (Hrest "alg" Hk).
    cbn [defaults lookup_prop String.eqb Ascii.eqb Bool.eqb].
    by apply validated_algorithm.
Qed.

Lemma sign_header_merges_options_witness :
  exists hb rest,
    utf8ToUint8Array
      (JSON_stringify (VObj [("alg", VStr "HS256"); ("typ", VStr "JWT"); ("kid", VStr "k1")]))
    = Ok hb
    /\ "eyJhbGciOiJIUzI1NiIsInR5cCI6IkpXVCIsImtpZCI6ImsxIn0.eyJmb28iOiJiYXIiLCJpYXQiOjE3MDAwMDAwMDB9.TQ"
       = base64UrlStringify hb +:+ "." +:+ rest.
Proof.
  destruct (sign_header_merges_options Reference.env Reference.caller (VStr "secret")
              (Some [("header", VObj [("kid", VStr "k1")])])
              (Reference.with_object [("foo", VStr "bar")])
              "eyJhbGciOiJIUzI1NiIsInR5cCI6IkpXVCIsImtpZCI6ImsxIn0.eyJmb28iOiJiYXIiLCJpYXQiOjE3MDAwMDAwMDB9.TQ"
              (snd (sign Reference.env Reference.caller (VStr "secret")
                      (Some [("header", VObj [("kid", VStr "k1")])])
                      (Reference.with_object [("foo", VStr "bar")]))))
    as (H & _).
  - vm_compute. reflexivity.
  - exact H.
Defined.

(** [sign] with [header: {alg: "foo"}] returns a token whose header has
    the [alg] ["foo"], and with [header: {alg: undefined}] a token whose
    header has no [alg]. *)
Lemma sign_header_alg_counterexample :
  fst (sign Reference.env Reference.caller (VStr "secret")
         (Some [("header", VObj [("alg", VStr "foo")])])
         (Reference.with_object [("foo", VStr "bar")]))
  = Ok "eyJhbGciOiJmb28iLCJ0eXAiOiJKV1QifQ.eyJmb28iOiJiYXIiLCJpYXQiOjE3MDAwMDAwMDB9.LQ"
  /\ rbind (decode (VStr "eyJhbGciOiJmb28iLCJ0eXAiOiJKV1QifQ.eyJmb28iOiJiYXIiLCJpYXQiOjE3MDAwMDAwMDB9.LQ")
              (VObj [("complete", VBool true)]))
       (fun jwt => get jwt "header")
     = Ok (VObj [("alg", VStr "foo"); ("typ", VStr "JWT")])
  /\ includes SUPPORTED_ALGS (VStr "foo") = false
  /\ fst (sign Reference.env Reference.caller (VStr "secret")
            (Some [("header", VObj [("alg", VUndefined)])])
            (Reference.with_object [("foo", VStr "bar")]))
     = Ok "eyJ0eXAiOiJKV1QifQ.eyJmb28iOiJiYXIiLCJpYXQiOjE3MDAwMDAwMDB9.0w"
  /\ rbind (decode (VStr "eyJ0eXAiOiJKV1QifQ.eyJmb28iOiJiYXIiLCJpYXQiOjE3MDAwMDAwMDB9.0w")
              (VObj [("complete", VBool true)]))
       (fun jwt => get jwt "header")
     = Ok (VObj [("typ", VStr "JWT")]).
Proof. repeat split; vm_compute; reflexivity. Qed.

(** ** The checks of [verify] on [nbf] and [exp] *)

(** A token whose payload is [{"nbf": 1700000010}], ten seconds after the
    clock of the reference environment; one whose payload is
    [{"payload": {"exp": 0}}], signed for the reference provider with the
    secret ["secret"]. *)
Definition token_not_yet_valid : string :=
  "eyJhbGciOiJIUzI1NiIsInR5cCI6IkpXVCJ9.eyJuYmYiOjE3MDAwMDAwMTB9.c2ln".

Definition token_expired_at_zero : string :=
  "eyJhbGciOiJIUzI1NiIsInR5cCI6IkpXVCJ9.eyJwYXlsb2FkIjp7ImV4cCI6MH19.7Q".

(** C4, at the failing inputs.  The payload of the first token has an
    [nbf] in the future, and [verify] with [throwError] fails with
    [ParseError], not [NotYetValid]: line 65 reads the property [payload]
    of the decoded payload, which this payload does not have.  The
    payload [verify] binds for the second token has [exp = 0], which is
    not later than the clock, and [verify] returns it: the check of line
    87 takes a claim that is zero for one that is not set. *)
Theorem verify_temporal_checks_at_failing_inputs :
  decode (VStr token_not_yet_valid) VUndefined = Ok (VObj [("nbf", VNum 1700000010)])
  /\ unix_seconds Reference.env < 1700000010
  /\ fst (verify Reference.env (VStr token_not_yet_valid) (VStr "secret")
            (VObj [("throwError", VBool true)]) (Reference.with_object []))
     = Throw (auth_token_error "ParseError")
  /\ rbind (decode (VStr token_expired_at_zero) VUndefined) (fun d => get d "payload")
     = Ok (VObj [("exp", VNum 0)])
  /\ 0 <= unix_seconds Reference.env
  /\ fst (verify Reference.env (VStr token_expired_at_zero) (VStr "secret")
            (VObj [("throwError", VBool true)]) (Reference.with_object []))
     = Ok (VObj [("exp", VNum 0)]).
Proof. repeat split; vm_compute; congruence. Qed.

(** ** [decode] on a payload that is no JSON text *)

(** A token of three base64url segments whose header is
    [{"alg":"HS256","typ":"JWT"}] and whose payload segment is the text
    [notjson]. *)
Definition token_payload_not_json : string :=
  "eyJhbGciOiJIUzI1NiIsInR5cCI6IkpXVCJ9.bm90anNvbg.c2ln".

(** C6, at the failing input.  The token matches the grammar and its
    header parses, with [typ] equal to ["JWT"]; [jwsDecode] then calls
    [JSON.parse] on the payload text outside any [try], and [decode]
    throws the [SyntaxError]. *)
Theorem decode_throws_on_invalid_payload :
  JWS_REGEX_test token_payload_not_json = true
  /\ headerFromJWS token_payload_not_json
     = VObj [("alg", VStr "HS256"); ("typ", VStr "JWT")]
  /\ payloadFromJWS token_payload_not_json = "notjson"
  /\ decode (VStr token_payload_not_json) VUndefined = Throw Json.syntax_error.
Proof. repeat split; vm_compute; reflexivity. Qed.

(** ** The timestamp of [sign] *)

(** The rational floor of [timespan] is the integer quotient. *)
Lemma floor_seconds_div timestamp milliseconds :
  floor_seconds timestamp milliseconds = timestamp + milliseconds / 1000.
Proof.
  unfold floor_seconds, Qfloor, Qplus, Qdiv, Qmult, Qinv, inject_Z. cbn.
  rewrite !Z.mul_1_r. by rewrite Z.div_add_l.
Qed.

(** [timespan] for a timestamp that is a number other than zero. *)
Lemma timespan_number E n t :
  t <> 0 -> timespan E (VNum n) (VNum t) = Ok (VNum (t + n)).
Proof.
  intros Ht. unfold timespan, js_or. cbn [truthy].
  apply Z.eqb_neq in Ht. by rewrite Ht.
Qed.

Lemma timespan_string E s t m :
  t <> 0 -> ms E s = Ok (Some m) ->
  timespan E (VStr s) (VNum t) = Ok (VNum (t + m / 1000)).
Proof.
  intros Ht Hms. unfold timespan, js_or. cbn [truthy].
  apply Z.eqb_neq in Ht. rewrite Ht, Hms. cbn [rbind number_of negb]. by rewrite floor_seconds_div.
Qed.

Lemma timespan_unparseable E s t :
  ms E s = Ok None -> timespan E (VStr s) t = Ok VUndefined.
Proof. intros Hms. unfold timespan. by rewrite Hms. Qed.

(** The timestamp is the [iat] of the payload when that is a number other
    than zero, and the clock when the payload has no [iat]. *)
Lemma timestamp_of_iat E ps n :
  get_prop "iat" ps = VNum n -> n <> 0 ->
  js_or (get_prop "iat" ps) (VNum (unix_seconds E)) = VNum n.
Proof.
  intros -> Hn. unfold js_or. cbn [truthy]. apply Z.eqb_neq in Hn. by rewrite Hn.
Qed.

Lemma timestamp_without_iat E ps :
  get_prop "iat" ps = VUndefined ->
  js_or (get_prop "iat" ps) (VNum (unix_seconds E)) = VNum (unix_seconds E).
Proof. by intros ->. Qed.

(** C8, at the failing input.  For the payload [{iat: 0}] signed with
    [notBefore: 60] the timestamp is the clock, 1700000000, and not the
    [iat] of the payload: the token carries [iat = 1700000000] and
    [nbf = 1700000060], where the claim has [iat = 0] and [nbf = 60]. *)
Theorem sign_timestamp_at_iat_zero :
  get_prop "iat" [("iat", VNum 0)] = VNum 0
  /\ unix_seconds Reference.env = 1700000000
  /\ expected_claims Reference.env (sign_options (Some [("notBefore", VNum 60)]))
       [("iat", VNum 0)]
     = [("iat", VNum 1700000000); ("nbf", VNum 1700000060)]
  /\ rbind (fst (sign Reference.env Reference.caller (VStr "secret")
                   (Some [("notBefore", VNum 60)])
                   (Reference.with_object [("iat", VNum 0)])))
       (fun token => decode (VStr token) VUndefined)
     = Ok (VObj [("iat", VNum 1700000000); ("nbf", VNum 1700000060)]).
Proof. repeat split; vm_compute; reflexivity. Qed.

(** ** The base64url codec *)

(** C7 (amended).  [base64UrlParse] undoes [base64UrlStringify] on every
    byte sequence; [base64UrlStringify] undoes [base64UrlParse] on every
    valid unpadded string, one that is canonical: of the URL-safe
    alphabet, of a length that is not 1 modulo 4, and with the unused
    bits of its last symbol zero.  [decodePayload] pads its input to a
    multiple of four, with ["=="] for a length of 2 modulo 4 and ["="]
    for 3 modulo 4, and throws for a length of 1 modulo 4, where
    [base64UrlParse] fails on a run of symbols too. *)
Theorem base64url_codec_round_trips :
  (forall a, base64UrlParse (base64UrlStringify a) = Ok a)
  /\ (forall s, valid_base64url s ->
        exists a, base64UrlParse s = Ok a /\ base64UrlStringify a = s)
  /\ (forall raw,
        match (String.length raw mod 4)%nat with
        | 0%nat => decodePayload_pad raw = Ok raw
        | 1%nat => decodePayload_pad raw = Throw (error_ "Illegal base64url string!")
                   /\ decodePayload raw = Throw (error_ "Illegal base64url string!")
        | 2%nat => decodePayload_pad raw = Ok (raw +:+ "==")
        | _ => decodePayload_pad raw = Ok (raw +:+ "=")
        end)
  /\ (forall raw padded,
        decodePayload_pad raw = Ok padded -> (String.length padded mod 4)%nat = 0%nat)
  /\ (forall s, forallb jws_char (chars s) = true -> (String.length s mod 4)%nat = 1%nat ->
        base64UrlParse s = Throw Base64.invalid_character).
Proof.
  split; [exact base64UrlParse_Stringify|].
  split; [exact base64UrlStringify_Parse|].
  split; [|split; [exact decodePayload_pad_length | exact base64UrlParse_illegal]].
  intros raw. pose proof (decodePayload_pad_spec raw) as H.
  pose proof (decodePayload_illegal raw) as H1.
  destruct (String.length raw mod 4)%nat as [|[|[|k]]]; auto.
Qed.

Lemma base64url_codec_witness :
  exists a, base64UrlParse "SGVsbG8" = Ok a /\ base64UrlStringify a = "SGVsbG8".
Proof.
  apply (proj1 (proj2 base64url_codec_round_trips) "SGVsbG8").
  split; [reflexivity|]. split; [vm_compute; discriminate | reflexivity].
Defined.

(** The string [QR] is of the alphabet and of length 2, and decodes to
    the byte [0x41], whose encoding is [QQ]. *)
Lemma base64url_noncanonical_counterexample :
  forallb jws_char (chars "QR") = true
  /\ (String.length "QR" mod 4)%nat <> 1%nat
  /\ base64UrlParse "QR" = Ok [Byte.x41]
  /\ base64UrlStringify [Byte.x41] = "QQ"
  /\ ~ (exists a, base64UrlParse "QR" = Ok a /\ base64UrlStringify a = "QR").
Proof.
  split; [reflexivity|]. split; [vm_compute; discriminate|].
  split; [reflexivity|]. split; [reflexivity|].
  intros (a & Ha & Hs). vm_compute in Ha. injection Ha as <-.
  vm_compute in Hs. discriminate Hs.
Qed.
